(** * IEEE-754 half precision conversions of [src/half.c]

    A shallow embedding of the four routines of [half.c]
    ([singles2halfp], [doubles2halfp], [halfp2singles], [halfp2doubles])
    and the properties of the specification checked against them.

    Machine integers are mathematical integers with the wrap-around of
    every C conversion written out; buffers are lists of words indexed
    by position; the function-local [static] variables are fields of an
    explicit process state. *)

From Stdlib Require Import ZArith Lia List Bool.
From stdpp Require Import base option list.

Local Open Scope Z_scope.

(** ** Fixed-width integers *)

Module Word.

(** Conversion to [cmsUInt16Number]. *)
Definition u16 (z : Z) : Z := z mod 2 ^ 16.

(** Conversion to [cmsUInt32Number]. *)
Definition u32 (z : Z) : Z := z mod 2 ^ 32.

(** Conversion to [cmsInt32Number] (two's complement). *)
Definition s32 (z : Z) : Z :=
  let m := z mod 2 ^ 32 in
  if m <? 2 ^ 31 then m else m - 2 ^ 32.

(** The values of a 16-bit and of a 32-bit word. *)
Definition is_u16 (z : Z) : Prop := 0 <= z < 2 ^ 16.
Definition is_u32 (z : Z) : Prop := 0 <= z < 2 ^ 32.

End Word.
Import Word.

(** ** The loop bodies: one element converted *)

(** Body of the [while] loop of [singles2halfp] (half.c:115-154): the
    half pattern stored through [hp] for the single pattern [x] read
    through [xp].  [hes] is declared [cmsUInt32Number], so the re-biased
    exponent is reduced modulo [2^32] and the comparisons on it are
    unsigned. *)
Definition singles2halfp_elem (x : Z) : Z :=
  if Z.land x 0x7FFFFFFF =? 0 then
    u16 (Z.shiftr x 16)
  else
    let xs := Z.land x 0x80000000 in
    let xe := Z.land x 0x7F800000 in
    let xm := Z.land x 0x007FFFFF in
    if xe =? 0 then
      u16 (Z.shiftr xs 16)
    else if xe =? 0x7F800000 then
      if xm =? 0 then u16 (Z.lor (Z.shiftr xs 16) 0x7C00)
      else u16 0xFE00
    else
      let hs := u16 (Z.shiftr xs 16) in
      let hes := u32 (Z.shiftr xe 23 - 127 + 15) in
      if hes >=? 0x1F then
        u16 (Z.lor (Z.shiftr xs 16) 0x7C00)
      else if hes <=? 0 then
        let hm :=
          if u32 (14 - hes) >? 24 then u16 0
          else
            let xm := Z.lor xm 0x00800000 in
            let hm := u16 (Z.shiftr xm (u32 (14 - hes))) in
            if Z.land (Z.shiftr xm (u32 (13 - hes))) 0x00000001 =? 0
            then hm
            else u16 (hm + u16 1) in
        u16 (Z.lor hs hm)
      else
        let he := u16 (u32 (Z.shiftl hes 10)) in
        let hm := u16 (Z.shiftr xm 13) in
        if Z.land xm 0x00001000 =? 0
        then u16 (Z.lor (Z.lor hs he) hm)
        else u16 (Z.lor (Z.lor hs he) hm + u16 1).

(** Body of the [while] loop of [doubles2halfp] (half.c:207-246); [x] is
    the one 32-bit word of the double that the loop reads. *)
Definition doubles2halfp_elem (x : Z) : Z :=
  if Z.land x 0x7FFFFFFF =? 0 then
    u16 (Z.shiftr x 16)
  else
    let xs := Z.land x 0x80000000 in
    let xe := Z.land x 0x7FF00000 in
    let xm := Z.land x 0x000FFFFF in
    if xe =? 0 then
      u16 (Z.shiftr xs 16)
    else if xe =? 0x7FF00000 then
      if xm =? 0 then u16 (Z.lor (Z.shiftr xs 16) 0x7C00)
      else u16 0xFE00
    else
      let hs := u16 (Z.shiftr xs 16) in
      let hes := u32 (Z.shiftr xe 20 - 1023 + 15) in
      if hes >=? 0x1F then
        u16 (Z.lor (Z.shiftr xs 16) 0x7C00)
      else if hes <=? 0 then
        let hm :=
          if u32 (10 - hes) >? 21 then u16 0
          else
            let xm := Z.lor xm 0x00100000 in
            let hm := u16 (Z.shiftr xm (u32 (11 - hes))) in
            if Z.land (Z.shiftr xm (u32 (10 - hes))) 0x00000001 =? 0
            then hm
            else u16 (hm + u16 1) in
        u16 (Z.lor hs hm)
      else
        let he := u16 (u32 (Z.shiftl hes 10)) in
        let hm := u16 (Z.shiftr xm 10) in
        if Z.land xm 0x00000200 =? 0
        then u16 (Z.lor (Z.lor hs he) hm)
        else u16 (Z.lor (Z.lor hs he) hm + u16 1).

(** The [do { e++; hm <<= 1; } while ((hm & 0x0400u) == 0)] loop of the
    two widening routines (half.c:306-309, 390-393).  [hm] is a 16-bit
    variable: after sixteen shifts it is zero, and from then on the C
    loop never leaves; [None] is that case, so sixteen units of fuel
    decide the loop for every starting value. *)
Fixpoint normalize (fuel : nat) (e hm : Z) : option (Z * Z) :=
  match fuel with
  | O => None
  | S fuel' =>
      let e := u32 (e + 1) in
      let hm := u16 (Z.shiftl hm 1) in
      if Z.land hm 0x0400 =? 0 then normalize fuel' e hm
      else Some (e, hm)
  end.

(** Body of the [while] loop of [halfp2singles] (half.c:297-328): the
    single pattern stored through [xp] for the half pattern [h]. *)
Definition halfp2singles_elem (h : Z) : option Z :=
  if Z.land h 0x7FFF =? 0 then
    Some (u32 (Z.shiftl h 16))
  else
    let hs := Z.land h 0x8000 in
    let he := Z.land h 0x7C00 in
    let hm := Z.land h 0x03FF in
    if he =? 0 then
      '(e, hm) ← normalize 16 (u32 (-1)) hm;
      let xs := u32 (Z.shiftl hs 16) in
      let xes := s32 (u32 (Z.shiftr he 10 - 15 + 127 - e)) in
      let xe := u32 (Z.shiftl xes 23) in
      let xm := u32 (Z.shiftl (Z.land hm 0x03FF) 13) in
      Some (Z.lor (Z.lor xs xe) xm)
    else if he =? 0x7C00 then
      if hm =? 0 then Some (Z.lor (u32 (Z.shiftl hs 16)) 0x7F800000)
      else Some 0xFFC00000
    else
      let xs := u32 (Z.shiftl hs 16) in
      let xes := s32 (Z.shiftr he 10 - 15 + 127) in
      let xe := u32 (Z.shiftl xes 23) in
      let xm := u32 (Z.shiftl hm 13) in
      Some (Z.lor (Z.lor xs xe) xm).

(** Body of the [while] loop of [halfp2doubles] (half.c:381-412): the
    32-bit word stored through [xp] for the half pattern [h]. *)
Definition halfp2doubles_elem (h : Z) : option Z :=
  if Z.land h 0x7FFF =? 0 then
    Some (u32 (Z.shiftl h 16))
  else
    let hs := Z.land h 0x8000 in
    let he := Z.land h 0x7C00 in
    let hm := Z.land h 0x03FF in
    if he =? 0 then
      '(e, hm) ← normalize 16 (u32 (-1)) hm;
      let xs := u32 (Z.shiftl hs 16) in
      let xes := s32 (u32 (Z.shiftr he 10 - 15 + 1023 - e)) in
      let xe := u32 (Z.shiftl xes 20) in
      let xm := u32 (Z.shiftl (Z.land hm 0x03FF) 10) in
      Some (Z.lor (Z.lor xs xe) xm)
    else if he =? 0x7C00 then
      if hm =? 0 then Some (Z.lor (u32 (Z.shiftl hs 16)) 0x7FF00000)
      else Some 0xFFF80000
    else
      let xs := u32 (Z.shiftl hs 16) in
      let xes := s32 (Z.shiftr he 10 - 15 + 1023) in
      let xe := u32 (Z.shiftl xes 20) in
      let xm := u32 (Z.shiftl hm 10) in
      Some (Z.lor (Z.lor xs xe) xm).

(** ** The environment of the translation unit *)

(** Modelled from the spec: the boolean success indicator.  [cmsBool]
    and [TRUE] come from lcms2.h, which is not part of the sources;
    [TRUE] is the C truth value. *)
Definition TRUE : Z := 1.

(** Modelled from the spec: the boolean failure indicator, [FALSE] of
    lcms2.h, which is not part of the sources. *)
Definition FALSE : Z := 0.

(** What the routines take from the build and from the host.  [FLASE]
    is the name assigned to [checkieee] at half.c:107; half.c does not
    declare it and lcms2_internal.h is not part of the sources, so its
    value is left open.  [one_w0] and [one_w1] are the two 32-bit words
    of [double one = 1.0], in address order, as read through [ip]. *)
Record platform := mkPlatform { FLASE : Z; one_w0 : Z; one_w1 : Z }.

(** The word that the check compares with [0x3FF00000], and the value it
    gives to [next]: the first word when it is nonzero, else the second. *)
Definition probe_word (p : platform) : Z :=
  if one_w0 p =? 0 then one_w1 p else one_w0 p.

Definition probe_next (p : platform) : Z :=
  if one_w0 p =? 0 then 1 else 0.

Definition ieee_compliant (p : platform) : Prop := probe_word p = 0x3FF00000.

(** ** The static variables *)

Inductive routine := Singles2halfp | Doubles2halfp | Halfp2singles | Halfp2doubles.

#[global] Instance routine_eq_dec : EqDecision routine.
Proof. solve_decision. Defined.

(** [static cmsUInt32Number next; static cmsBool checkieee = TRUE;],
    declared once in each routine. *)
Record statics := mkStatics { checkieee : Z; next : Z }.

(** The state of the process that outlives a call: the statics of the
    four routines, and [probe_log], which is not in the C code: it
    records, latest first, each entry into an [if( checkieee )] block. *)
Record process := mkProcess {
  st_singles2halfp : statics;
  st_doubles2halfp : statics;
  st_halfp2singles : statics;
  st_halfp2doubles : statics;
  probe_log : list routine
}.

Definition process_start : process :=
  let s := {| checkieee := TRUE; next := 0 |} in
  {| st_singles2halfp := s; st_doubles2halfp := s;
     st_halfp2singles := s; st_halfp2doubles := s; probe_log := [] |}.

Definition statics_of (r : routine) (pr : process) : statics :=
  match r with
  | Singles2halfp => st_singles2halfp pr
  | Doubles2halfp => st_doubles2halfp pr
  | Halfp2singles => st_halfp2singles pr
  | Halfp2doubles => st_halfp2doubles pr
  end.

Definition set_statics (r : routine) (s : statics) (pr : process) : process :=
  match r with
  | Singles2halfp =>
      mkProcess s (st_doubles2halfp pr) (st_halfp2singles pr) (st_halfp2doubles pr) (probe_log pr)
  | Doubles2halfp =>
      mkProcess (st_singles2halfp pr) s (st_halfp2singles pr) (st_halfp2doubles pr) (probe_log pr)
  | Halfp2singles =>
      mkProcess (st_singles2halfp pr) (st_doubles2halfp pr) s (st_halfp2doubles pr) (probe_log pr)
  | Halfp2doubles =>
      mkProcess (st_singles2halfp pr) (st_doubles2halfp pr) (st_halfp2singles pr) s (probe_log pr)
  end.

Definition record_probe (r : routine) (pr : process) : process :=
  mkProcess (st_singles2halfp pr) (st_doubles2halfp pr) (st_halfp2singles pr)
            (st_halfp2doubles pr) (r :: probe_log pr).

(** The value each routine assigns to its [checkieee] after a passed
    check: [FLASE] in [singles2halfp] (half.c:107), [FALSE] in the other
    three (half.c:197, 290, 372). *)
Definition cleared (p : platform) (r : routine) : Z :=
  match r with
  | Singles2halfp => FLASE p
  | _ => FALSE
  end.

(** The [if( checkieee ) { ... }] block that opens each routine
    (half.c:96-108, 186-198, 279-291, 361-373), run on the statics of
    routine [r].  The boolean is [false] when the block executes
    [return FALSE]. *)
Definition ieee_check (p : platform) (r : routine) (pr : process) : process * bool :=
  let s := statics_of r pr in
  if checkieee s =? 0 then (pr, true)
  else
    let pr := record_probe r pr in
    let '(nxt, ip) :=
      if one_w0 p =? 0 then (1, one_w1 p) else (0, one_w0 p) in
    if ip =? 0x3FF00000
    then (set_statics r {| checkieee := cleared p r; next := nxt |} pr, true)
    else (set_statics r {| checkieee := checkieee s; next := nxt |} pr, false).

(** ** Buffers and the conversion loops *)

(** A buffer is the list of the words it holds; a null address is
    [None].  Source and target are distinct buffers. *)
Definition buffer := option (list Z).

(** [*p = v] at index [i]; outside the buffer the behaviour is
    undefined ([None]). *)
Definition store (l : list Z) (i : nat) (v : Z) : option (list Z) :=
  if decide (i < length l)%nat then Some (<[i := v]> l) else None.

(** [while( numel-- ) { ... }] of the four routines: each turn reads one
    word at [sp], converts it with [elem], writes the result at [tp],
    and moves the two indices by [sstep] and [tstep].  [None] is a turn
    that does not complete: an access outside a buffer, or a conversion
    that does not end. *)
Fixpoint convert_loop (elem : Z -> option Z) (sstep tstep : nat)
    (numel : nat) (sp tp : nat) (src tgt : list Z) : option (list Z) :=
  match numel with
  | O => Some tgt
  | S numel' =>
      x ← src !! sp;
      y ← elem x;
      tgt' ← store tgt tp y;
      convert_loop elem sstep tstep numel' (sp + sstep) (tp + tstep) src tgt'
  end.

(** What a call leaves behind: the value returned, the process state and
    the target buffer; or nothing defined. *)
Inductive outcome :=
| Return (rv : Z) (pr : process) (target : buffer)
| Undefined.

Definition finish (pr : process) (r : option (list Z)) : outcome :=
  match r with
  | Some tgt => Return TRUE pr (Some tgt)
  | None => Undefined
  end.

(** half.c:84-157.  [numel] is a [cmsUInt32Number]. *)
Definition singles2halfp (p : platform) (pr : process)
    (target source : buffer) (numel : Z) : outcome :=
  match ieee_check p Singles2halfp pr with
  | (pr, false) => Return FALSE pr target
  | (pr, true) =>
      match source, target with
      | Some src, Some tgt =>
          finish pr (convert_loop (fun x => Some (singles2halfp_elem x)) 1 1
                                  (Z.to_nat numel) 0 0 src tgt)
      | _, _ => Return TRUE pr target
      end
  end.

(** half.c:174-249.  The source is read as 32-bit words, two for each
    double, starting at index [next]; [xp += next] comes before the
    null test and reads nothing. *)
Definition doubles2halfp (p : platform) (pr : process)
    (target source : buffer) (numel : Z) : outcome :=
  match ieee_check p Doubles2halfp pr with
  | (pr, false) => Return FALSE pr target
  | (pr, true) =>
      let xp := Z.to_nat (next (st_doubles2halfp pr)) in
      match source, target with
      | Some src, Some tgt =>
          finish pr (convert_loop (fun x => Some (doubles2halfp_elem x)) 2 1
                                  (Z.to_nat numel) xp 0 src tgt)
      | _, _ => Return TRUE pr target
      end
  end.

(** half.c:266-331. *)
Definition halfp2singles (p : platform) (pr : process)
    (target source : buffer) (numel : Z) : outcome :=
  match ieee_check p Halfp2singles pr with
  | (pr, false) => Return FALSE pr target
  | (pr, true) =>
      match source, target with
      | Some src, Some tgt =>
          finish pr (convert_loop halfp2singles_elem 1 1
                                  (Z.to_nat numel) 0 0 src tgt)
      | _, _ => Return TRUE pr target
      end
  end.

(** half.c:348-416.  The target is written as 32-bit words, two for each
    double, starting at index [next]; [xp += next] comes before the
    null test and writes nothing. *)
Definition halfp2doubles (p : platform) (pr : process)
    (target source : buffer) (numel : Z) : outcome :=
  match ieee_check p Halfp2doubles pr with
  | (pr, false) => Return FALSE pr target
  | (pr, true) =>
      let xp := Z.to_nat (next (st_halfp2doubles pr)) in
      match source, target with
      | Some src, Some tgt =>
          finish pr (convert_loop halfp2doubles_elem 1 2
                                  (Z.to_nat numel) 0 xp src tgt)
      | _, _ => Return TRUE pr target
      end
  end.

(** One call of one of the four entry points. *)
Definition call (p : platform) (r : routine) (pr : process)
    (target source : buffer) (numel : Z) : outcome :=
  match r with
  | Singles2halfp => singles2halfp p pr target source numel
  | Doubles2halfp => doubles2halfp p pr target source numel
  | Halfp2singles => halfp2singles p pr target source numel
  | Halfp2doubles => halfp2doubles p pr target source numel
  end.

(** Two hosts that pass the check, with [FLASE] standing for zero. *)
Definition little_endian_ieee : platform :=
  {| FLASE := 0; one_w0 := 0; one_w1 := 0x3FF00000 |}.
Definition big_endian_ieee : platform :=
  {| FLASE := 0; one_w0 := 0x3FF00000; one_w1 := 0 |}.

(** ** Sequences of calls *)

(** One call: the routine and its three arguments. *)
Record invocation := mkInvocation {
  inv_routine : routine;
  inv_target : buffer;
  inv_source : buffer;
  inv_numel : Z
}.

(** The calls of a list made one after the other on the same process;
    [None] when one of them has no defined outcome. *)
Fixpoint run (p : platform) (pr : process) (calls : list invocation) : option process :=
  match calls with
  | [] => Some pr
  | c :: calls' =>
      match call p (inv_routine c) pr (inv_target c) (inv_source c) (inv_numel c) with
      | Return _ pr' _ => run p pr' calls'
      | Undefined => None
      end
  end.

(** How many times routine [r] has entered its check block. *)
Definition probes_of (r : routine) (pr : process) : nat :=
  count_occ routine_eq_dec (probe_log pr) r.

(** A routine that stores zero in its flag after a passed check has
    entered its check block at most once, and not at all while its flag
    is still set. *)
Definition entered_once (p : platform) (pr : process) : Prop :=
  forall r, cleared p r = 0 ->
    (checkieee (statics_of r pr) <> 0 -> probes_of r pr = 0%nat) /\
    (probes_of r pr <= 1)%nat.

(** A run of four calls on a little-endian host, and the state it
    leaves: [halfp2doubles] and [doubles2halfp] have cleared their flags,
    the other two routines have not been called. *)
Definition example_calls : list invocation :=
  [ mkInvocation Halfp2doubles (Some [0; 0]) (Some [0x3C00]) 1;
    mkInvocation Halfp2doubles (Some [0; 0]) (Some [0xBC00]) 1;
    mkInvocation Doubles2halfp (Some [0]) (Some [0; 0x3FF00000]) 1;
    mkInvocation Halfp2doubles None None 0 ].

Definition example_state : process :=
  {| st_singles2halfp := {| checkieee := TRUE; next := 0 |};
     st_doubles2halfp := {| checkieee := FALSE; next := 1 |};
     st_halfp2singles := {| checkieee := TRUE; next := 0 |};
     st_halfp2doubles := {| checkieee := FALSE; next := 1 |};
     probe_log := [Doubles2halfp; Halfp2doubles] |}.

(** ** Vocabulary of the specification *)

(** The three bitfields of a half and of a single pattern. *)
Definition half_sign (h : Z) : bool := Z.testbit h 15.
Definition half_exp (h : Z) : Z := Z.land (Z.shiftr h 10) 0x1F.
Definition half_man (h : Z) : Z := Z.land h 0x3FF.

Definition single_sign (x : Z) : bool := Z.testbit x 31.
Definition single_exp (x : Z) : Z := Z.land (Z.shiftr x 23) 0xFF.
Definition single_man (x : Z) : Z := Z.land x 0x7FFFFF.

(** A double assembled from its high-order and low-order 32-bit words. *)
Definition double_of_words (hi lo : Z) : Z := Z.lor (Z.shiftl hi 32) lo.
Definition double_sign (d : Z) : bool := Z.testbit d 63.

Definition half_is_nan (h : Z) : Prop := half_exp h = 0x1F /\ half_man h <> 0.

(** The process states that calls can produce from the start of the
    process. *)
Inductive reachable (p : platform) : process -> Prop :=
| reachable_start : reachable p process_start
| reachable_call r pr target source numel rv pr' target' :
    reachable p pr ->
    call p r pr target source numel = Return rv pr' target' ->
    reachable p pr'.

(** ** Definitions used by the statements and by the proofs *)

(** The patterns [lo], [lo + 1], ..., [lo + n - 1]. *)
Fixpoint upfrom (lo : Z) (n : nat) : list Z :=
  match n with
  | O => []
  | S n' => lo :: upfrom (lo + 1) n'
  end.

Definition range (lo n : Z) : list Z := upfrom lo (Z.to_nat n).

(** The normalising loop ends for every nonzero 10-bit mantissa, after
    at most ten turns: it leaves [e] between 0 and 9. *)
Definition normalize_ok (hm : Z) : bool :=
  match normalize 16 (u32 (-1)) hm with
  | Some (e, _) => (0 <=? e) && (e <=? 9)
  | None => false
  end.

(** The three ways through the block: skipped, entered and passed,
    entered and failed. *)
Inductive check_case (p : platform) (r : routine) (pr : process) : process * bool -> Prop :=
| check_skipped :
    checkieee (statics_of r pr) = 0 ->
    check_case p r pr (pr, true)
| check_passed :
    checkieee (statics_of r pr) <> 0 ->
    ieee_compliant p ->
    check_case p r pr
      (set_statics r {| checkieee := cleared p r; next := probe_next p |}
                   (record_probe r pr), true)
| check_failed :
    checkieee (statics_of r pr) <> 0 ->
    ~ ieee_compliant p ->
    check_case p r pr
      (set_statics r {| checkieee := checkieee (statics_of r pr); next := probe_next p |}
                   (record_probe r pr), false).

(** Whenever a routine has cleared its flag, the host passed the check
    and the routine's [next] is the one the check computes. *)
Definition consistent (p : platform) (pr : process) : Prop :=
  forall r, checkieee (statics_of r pr) = 0 ->
            ieee_compliant p /\ next (statics_of r pr) = probe_next p.

Definition src_words (r : routine) : nat :=
  match r with Doubles2halfp => 2 | _ => 1 end.

Definition tgt_words (r : routine) : nat :=
  match r with Halfp2doubles => 2 | _ => 1 end.

Definition elem_of (r : routine) : Z -> option Z :=
  match r with
  | Singles2halfp => fun x => Some (singles2halfp_elem x)
  | Doubles2halfp => fun x => Some (doubles2halfp_elem x)
  | Halfp2singles => halfp2singles_elem
  | Halfp2doubles => halfp2doubles_elem
  end.

(** Where the two indices start: the 64-bit side starts at [next]. *)
Definition src_start (r : routine) (pr : process) : nat :=
  match r with Doubles2halfp => Z.to_nat (next (st_doubles2halfp pr)) | _ => 0 end.

Definition tgt_start (r : routine) (pr : process) : nat :=
  match r with Halfp2doubles => Z.to_nat (next (st_halfp2doubles pr)) | _ => 0 end.

(** The buffers hold [numel] elements each (two words for a double). *)
Definition buffers_fit (r : routine) (numel : Z) (src tgt : list Z) : Prop :=
  (src_words r * Z.to_nat numel <= length src)%nat /\
  (tgt_words r * Z.to_nat numel <= length tgt)%nat.

(** Index of the high-order and of the low-order word of double [i] in
    a buffer of 32-bit words: [next] says which of the two comes first. *)
Definition high_word (p : platform) (i : nat) : nat :=
  (Z.to_nat (probe_next p) + i * 2)%nat.

Definition low_word (p : platform) (i : nat) : nat :=
  (1 - Z.to_nat (probe_next p) + i * 2)%nat.

(** The word that turn [i] of routine [r] reads, and the word it writes. *)
Definition src_at (p : platform) (r : routine) (i : nat) : nat :=
  match r with Doubles2halfp => high_word p i | _ => i end.

Definition tgt_at (p : platform) (r : routine) (i : nat) : nat :=
  match r with Halfp2doubles => high_word p i | _ => i end.

(** What a call has written at index [i] of the target when it
    returned [TRUE]. *)
Definition writes_at (o : outcome) (i : nat) (y : Z) : Prop :=
  exists pr' tgt', o = Return TRUE pr' (Some tgt') /\ tgt' !! i = Some y.

(** The target buffer of a call that returned [TRUE]. *)
Definition written (o : outcome) : option (list Z) :=
  match o with
  | Return rv _ (Some tgt) => if rv =? TRUE then Some tgt else None
  | _ => None
  end.

(** [halfp2singles] on the one half [h], then [singles2halfp] on the
    single it wrote, in a process that starts; the half that comes
    back. *)
Definition single_round_trip (p : platform) (h : Z) : option Z :=
  match halfp2singles p process_start (Some [0]) (Some [h]) 1 with
  | Return _ pr (Some wide) =>
      match written (singles2halfp p pr (Some [0]) (Some wide) 1) with
      | Some [h'] => Some h'
      | _ => None
      end
  | _ => None
  end.

(** [halfp2doubles] on the one half [h], into a double whose two words
    are zero, then [doubles2halfp] on that double. *)
Definition double_round_trip (p : platform) (h : Z) : option Z :=
  match halfp2doubles p process_start (Some [0; 0]) (Some [h]) 1 with
  | Return _ pr (Some wide) =>
      match written (doubles2halfp p pr (Some [0]) (Some wide) 1) with
      | Some [h'] => Some h'
      | _ => None
      end
  | _ => None
  end.

(** A half denormal whose mantissa has bit 9 clear: a magnitude below
    [2^-15]. *)
Definition lower_denormal (h : Z) : Prop :=
  half_exp h = 0 /\ 0 < half_man h < 0x200.

(** The two loop bodies composed on the denormal halves of mantissa
    [hm], of either sign: the half comes back when [hm] has bit 9 set,
    and the infinity of its sign comes back when it has not. *)
Definition denormal_round_trip (hm : Z) : bool :=
  let expect h := if hm <? 0x200 then Z.lor (Z.land h 0x8000) 0x7C00 else h in
  forallb (fun h =>
             match halfp2singles_elem h, halfp2doubles_elem h with
             | Some x, Some d =>
                 (singles2halfp_elem x =? expect h) && (doubles2halfp_elem d =? expect h)
             | _, _ => false
             end)
          [hm; Z.lor 0x8000 hm].

(** The three fields of a widened normalized half, each on its own: the
    field stays inside its mask of the wide word, and narrowing gives
    back the field of the half.  [S] is the sign field of the half, [E]
    its exponent and [M] its mantissa. *)
Definition sign_field_ok (S : Z) : bool :=
  let xs := u32 (Z.shiftl S 16) in
  (Z.land xs 0x7FFFFFFF =? 0) && (Z.land xs 0x80000000 =? xs) &&
  (Z.land xs 0x7F800000 =? 0) && (Z.land xs 0x007FFFFF =? 0) &&
  (Z.land xs 0x7FF00000 =? 0) && (Z.land xs 0x000FFFFF =? 0) &&
  (u16 (Z.shiftr xs 16) =? S).

Definition single_exp_field_ok (E : Z) : bool :=
  let xe := u32 (Z.shiftl (s32 (E - 15 + 127)) 23) in
  let hes := u32 (Z.shiftr xe 23 - 127 + 15) in
  (Z.land xe 0x80000000 =? 0) && (Z.land xe 0x7F800000 =? xe) &&
  (Z.land xe 0x007FFFFF =? 0) && (Z.land xe 0x7FFFFFFF =? xe) &&
  negb (xe =? 0) && negb (xe =? 0x7F800000) &&
  negb (hes >=? 0x1F) && negb (hes <=? 0) &&
  (u16 (u32 (Z.shiftl hes 10)) =? Z.shiftl E 10).

Definition single_man_field_ok (M : Z) : bool :=
  let xm := u32 (Z.shiftl M 13) in
  (Z.land xm 0x80000000 =? 0) && (Z.land xm 0x7F800000 =? 0) &&
  (Z.land xm 0x007FFFFF =? xm) && (Z.land xm 0x7FFFFFFF =? xm) &&
  (u16 (Z.shiftr xm 13) =? M) && (Z.land xm 0x00001000 =? 0).

Definition double_exp_field_ok (E : Z) : bool :=
  let xe := u32 (Z.shiftl (s32 (E - 15 + 1023)) 20) in
  let hes := u32 (Z.shiftr xe 20 - 1023 + 15) in
  (Z.land xe 0x80000000 =? 0) && (Z.land xe 0x7FF00000 =? xe) &&
  (Z.land xe 0x000FFFFF =? 0) && (Z.land xe 0x7FFFFFFF =? xe) &&
  negb (xe =? 0) && negb (xe =? 0x7FF00000) &&
  negb (hes >=? 0x1F) && negb (hes <=? 0) &&
  (u16 (u32 (Z.shiftl hes 10)) =? Z.shiftl E 10).

Definition double_man_field_ok (M : Z) : bool :=
  let xm := u32 (Z.shiftl M 10) in
  (Z.land xm 0x80000000 =? 0) && (Z.land xm 0x7FF00000 =? 0) &&
  (Z.land xm 0x000FFFFF =? xm) && (Z.land xm 0x7FFFFFFF =? xm) &&
  (u16 (Z.shiftr xm 10) =? M) && (Z.land xm 0x00000200 =? 0).

(** A routine that has not entered its check block yet still has its
    flag set. *)
Definition fresh_flags (pr : process) : Prop :=
  forall r, probes_of r pr = 0%nat -> checkieee (statics_of r pr) <> 0.

(** ** Vocabulary of the further properties *)

(** The half sign bit as a word. *)
Definition sign16 (s : bool) : Z := if s then 0x8000 else 0.

Definition single_is_nan (x : Z) : Prop := single_exp x = 0xFF /\ single_man x <> 0.

(** The exponent, mantissa and sign fields of the high-order word of a
    double. *)
Definition high_exp (x : Z) : Z := Z.land (Z.shiftr x 20) 0x7FF.
Definition high_man (x : Z) : Z := Z.land x 0xFFFFF.
Definition high_sign (x : Z) : bool := Z.testbit x 31.

(** The magnitude of a finite half in units of [2^-24], of a finite
    single in units of [2^-149] and of a finite double in units of
    [2^-1074]: the mantissa for a denormal, the mantissa with its hidden
    bit scaled by the exponent for a normalized number. *)
Definition half_magnitude (h : Z) : Z :=
  if half_exp h =? 0 then half_man h
  else (2 ^ 10 + half_man h) * 2 ^ (half_exp h - 1).

Definition single_magnitude (x : Z) : Z :=
  if single_exp x =? 0 then single_man x
  else (2 ^ 23 + single_man x) * 2 ^ (single_exp x - 1).

Definition double_exp (d : Z) : Z := Z.land (Z.shiftr d 52) 0x7FF.
Definition double_man (d : Z) : Z := Z.land d (Z.ones 52).

Definition double_magnitude (d : Z) : Z :=
  if double_exp d =? 0 then double_man d
  else (2 ^ 52 + double_man d) * 2 ^ (double_exp d - 1).

(** The word of the wide sign bit. *)
Definition sign32 (s : bool) : Z := if s then 0x80000000 else 0.

(** The words a half denormal of mantissa [hm], of either sign, widens
    to: normalized, of the same magnitude. *)
Definition denormal_widens_exactly (hm : Z) : bool :=
  forallb (fun h =>
             match halfp2singles_elem h, halfp2doubles_elem h with
             | Some x, Some d =>
                 (single_magnitude x =? half_magnitude h * 2 ^ 125) &&
                 (103 <=? single_exp x) && (single_exp x <=? 112) &&
                 (double_magnitude (double_of_words d 0) =? half_magnitude h * 2 ^ 1050) &&
                 (999 <=? double_exp (double_of_words d 0)) &&
                 (double_exp (double_of_words d 0) <=? 1008)
             | _, _ => false
             end)
          [hm; Z.lor 0x8000 hm].

(** A half that the two round trips give back: finite, and not a
    denormal below [2^-15]. *)
Definition comes_back (h : Z) : Prop :=
  is_u16 h /\ half_exp h <> 0x1F /\ ~ lower_denormal h.

(** * Facts about the model *)

(** ** Bit-level facts *)

Lemma land_pow2 (x n : Z) :
  0 <= n -> Z.land x (2 ^ n) = if Z.testbit x n then 2 ^ n else 0.
Proof.
  intros Hn. apply Z.bits_inj'. intros m Hm.
  rewrite Z.land_spec, Z.pow2_bits_eqb by assumption.
  destruct (Z.eqb_spec n m) as [->|Hne].
  - destruct (Z.testbit x m); simpl.
    + now rewrite Z.pow2_bits_true.
    + now rewrite Z.bits_0.
  - rewrite andb_false_r.
    destruct (Z.testbit x n).
    + rewrite Z.pow2_bits_false; auto.
    + now rewrite Z.bits_0.
Qed.

Lemma sign_word (x : Z) :
  Z.land x 0x80000000 = if Z.testbit x 31 then 0x80000000 else 0.
Proof. apply (land_pow2 x 31). lia. Qed.

(** A mask [m] that covers mask [k] sees a nonzero value wherever
    [k] does. *)
Lemma land_submask (x m k : Z) :
  Z.land m k = k -> Z.land x m = 0 -> Z.land x k = 0.
Proof.
  intros Hk H0. rewrite <- Hk, Z.land_assoc, H0. apply Z.land_0_l.
Qed.

Lemma single_exp_field (x : Z) :
  Z.shiftr (Z.land x 0x7F800000) 23 = single_exp x.
Proof. unfold single_exp. now rewrite Z.shiftr_land. Qed.

Lemma single_exp_range (x : Z) : 0 <= single_exp x <= 255.
Proof.
  unfold single_exp. change 255 with (Z.ones 8).
  rewrite Z.land_ones by lia. change (Z.ones 8) with (2 ^ 8 - 1).
  pose proof (Z.mod_pos_bound (Z.shiftr x 23) (2 ^ 8)). lia.
Qed.

Lemma single_exp_mask (x : Z) :
  Z.land x 0x7F800000 = Z.shiftl (single_exp x) 23.
Proof.
  unfold single_exp.
  rewrite Z.shiftl_land, <- Z.ldiff_ones_r, Z.ldiff_land, <- Z.land_assoc by lia.
  reflexivity.
Qed.

(** ** Narrowing one single: the special cases *)

Lemma singles2halfp_elem_nan (x : Z) :
  Z.land x 0x7F800000 = 0x7F800000 ->
  Z.land x 0x007FFFFF <> 0 ->
  singles2halfp_elem x = 0xFE00.
Proof.
  intros He Hm. unfold singles2halfp_elem.
  destruct (Z.eqb_spec (Z.land x 0x7FFFFFFF) 0) as [H0|_].
  - apply (land_submask x _ 0x7F800000) in H0; [congruence | reflexivity].
  - rewrite He.
    change (0x7F800000 =? 0) with false.
    change (0x7F800000 =? 0x7F800000) with true. cbv iota.
    destruct (Z.eqb_spec (Z.land x 0x007FFFFF) 0); [contradiction | reflexivity].
Qed.

Lemma singles2halfp_elem_overflow (x : Z) :
  single_exp x <> 0 ->
  single_exp x <> 0xFF ->
  single_exp x - 127 + 15 >= 31 ->
  singles2halfp_elem x = Z.lor (Z.shiftr (Z.land x 0x80000000) 16) 0x7C00.
Proof.
  intros Hz Hf Hbig. unfold singles2halfp_elem.
  pose proof (single_exp_field x) as Hfield.
  pose proof (single_exp_range x) as Hrange.
  destruct (Z.eqb_spec (Z.land x 0x7FFFFFFF) 0) as [H0|_].
  { apply (land_submask x _ 0x7F800000) in H0; [|reflexivity].
    rewrite H0 in Hfield. change (Z.shiftr 0 23) with 0 in Hfield. congruence. }
  destruct (Z.eqb_spec (Z.land x 0x7F800000) 0) as [H0|_].
  { rewrite H0 in Hfield. change (Z.shiftr 0 23) with 0 in Hfield. congruence. }
  destruct (Z.eqb_spec (Z.land x 0x7F800000) 0x7F800000) as [H1|_].
  { rewrite H1 in Hfield. change (Z.shiftr 0x7F800000 23) with 0xFF in Hfield.
    congruence. }
  rewrite Hfield.
  assert (Hhes : u32 (single_exp x - 127 + 15) = single_exp x - 112).
  { unfold u32. rewrite Z.mod_small; lia. }
  rewrite Hhes.
  destruct (Z.geb_spec (single_exp x - 112) 0x1F) as [_|Hlt]; [|lia].
  rewrite sign_word. destruct (Z.testbit x 31); reflexivity.
Qed.

(** A single zero or denormal (exponent field zero) narrows to the zero
    of its sign. *)
Lemma singles2halfp_elem_denormal (x : Z) :
  is_u32 x -> single_exp x = 0 ->
  singles2halfp_elem x = if single_sign x then 0x8000 else 0x0000.
Proof.
  intros Hx He. unfold singles2halfp_elem, single_sign.
  pose proof (single_exp_mask x) as Hmask. rewrite He in Hmask.
  change (Z.shiftl 0 23) with 0 in Hmask.
  destruct (Z.eqb_spec (Z.land x 0x7FFFFFFF) 0) as [H0|_].
  - assert (Hsplit : x = Z.lor (Z.land x 0x80000000) (Z.land x 0x7FFFFFFF)).
    { rewrite <- Z.land_lor_distr_r.
      change (Z.lor 0x80000000 0x7FFFFFFF) with (Z.ones 32).
      rewrite Z.land_ones by lia. symmetry. now apply Z.mod_small. }
    rewrite H0, Z.lor_0_r, sign_word in Hsplit.
    destruct (Z.testbit x 31); rewrite Hsplit; reflexivity.
  - rewrite Hmask. change (0 =? 0) with true. cbv iota.
    rewrite sign_word. destruct (Z.testbit x 31); reflexivity.
Qed.

(** The unsigned [hes] sends every normalized single below the half
    range to the same branch as the ones above it: a re-biased exponent
    below zero wraps to a value of at least [2^32 - 111]. *)
Lemma singles2halfp_elem_wraps (x : Z) :
  single_exp x <> 0 ->
  single_exp x - 127 + 15 < 0 ->
  singles2halfp_elem x = Z.lor (Z.shiftr (Z.land x 0x80000000) 16) 0x7C00.
Proof.
  intros Hz Hneg. unfold singles2halfp_elem.
  pose proof (single_exp_field x) as Hfield.
  pose proof (single_exp_range x) as Hrange.
  destruct (Z.eqb_spec (Z.land x 0x7FFFFFFF) 0) as [H0|_].
  { apply (land_submask x _ 0x7F800000) in H0; [|reflexivity].
    rewrite H0 in Hfield. change (Z.shiftr 0 23) with 0 in Hfield. congruence. }
  destruct (Z.eqb_spec (Z.land x 0x7F800000) 0) as [H0|_].
  { rewrite H0 in Hfield. change (Z.shiftr 0 23) with 0 in Hfield. congruence. }
  destruct (Z.eqb_spec (Z.land x 0x7F800000) 0x7F800000) as [H1|_].
  { rewrite H1 in Hfield. change (Z.shiftr 0x7F800000 23) with 0xFF in Hfield. lia. }
  rewrite Hfield.
  assert (Hhes : u32 (single_exp x - 127 + 15) = single_exp x - 112 + 2 ^ 32).
  { unfold u32. symmetry. apply Z.mod_unique with (q := -1); lia. }
  rewrite Hhes.
  destruct (Z.geb_spec (single_exp x - 112 + 2 ^ 32) 0x1F) as [_|Hlt]; [|lia].
  rewrite sign_word. destruct (Z.testbit x 31); reflexivity.
Qed.

(** ** Deciding a property on a range of patterns *)


Lemma in_upfrom (n : nat) :
  forall lo h, lo <= h < lo + Z.of_nat n -> In h (upfrom lo n).
Proof.
  induction n as [|n IH]; intros lo h Hh; [lia|].
  destruct (Z.eq_dec h lo) as [->|Hne]; [now left|].
  right. apply IH. lia.
Qed.

Lemma in_range (lo n h : Z) : lo <= h < lo + n -> In h (range lo n).
Proof. intros Hh. apply in_upfrom. lia. Qed.

(** A boolean test that holds on the whole range holds at each
    pattern in it. *)
Lemma check_range (test : Z -> bool) (lo n : Z) :
  forallb test (range lo n) = true ->
  forall h, lo <= h < lo + n -> test h = true.
Proof.
  intros Hall h Hh.
  rewrite forallb_forall in Hall. apply Hall, in_range, Hh.
Qed.

(** ** Widening one half *)

Lemma normalize_spec (hm : Z) :
  0 < hm < 0x400 ->
  exists e hm', normalize 16 (u32 (-1)) hm = Some (e, hm') /\ 0 <= e <= 9.
Proof.
  intros Hhm.
  assert (Ht : normalize_ok hm = true).
  { apply (check_range normalize_ok 1 1023); [vm_compute; reflexivity | lia]. }
  unfold normalize_ok in Ht.
  destruct (normalize 16 (u32 (-1)) hm) as [[e hm']|]; [|discriminate].
  exists e, hm'. split; [reflexivity | lia].
Qed.

Lemma half_fields_split (h : Z) :
  Z.land h 0x7FFF = Z.lor (Z.land h 0x7C00) (Z.land h 0x03FF).
Proof. now rewrite <- Z.land_lor_distr_r. Qed.

Lemma half_man_range (h : Z) : 0 <= Z.land h 0x03FF < 0x400.
Proof.
  change 0x03FF with (Z.ones 10). rewrite Z.land_ones by lia.
  change 0x400 with (2 ^ 10). apply Z.mod_pos_bound. lia.
Qed.

(** In the denormal branch the mantissa handed to the loop is not zero. *)
Lemma denormal_man_nonzero (h : Z) :
  Z.land h 0x7FFF <> 0 -> Z.land h 0x7C00 = 0 -> 0 < Z.land h 0x03FF < 0x400.
Proof.
  intros Hnz He. pose proof (half_man_range h).
  rewrite half_fields_split, He, Z.lor_0_l in Hnz. lia.
Qed.

Lemma halfp2singles_elem_total (h : Z) : is_Some (halfp2singles_elem h).
Proof.
  unfold halfp2singles_elem.
  destruct (Z.eqb_spec (Z.land h 0x7FFF) 0) as [|Hnz]; [eauto|].
  destruct (Z.eqb_spec (Z.land h 0x7C00) 0) as [He|_].
  - destruct (normalize_spec _ (denormal_man_nonzero h Hnz He)) as (e & hm & -> & _).
    simpl. eauto.
  - destruct (_ =? 0x7C00); [destruct (_ =? 0)|]; eauto.
Qed.

Lemma halfp2doubles_elem_total (h : Z) : is_Some (halfp2doubles_elem h).
Proof.
  unfold halfp2doubles_elem.
  destruct (Z.eqb_spec (Z.land h 0x7FFF) 0) as [|Hnz]; [eauto|].
  destruct (Z.eqb_spec (Z.land h 0x7C00) 0) as [He|_].
  - destruct (normalize_spec _ (denormal_man_nonzero h Hnz He)) as (e & hm & -> & _).
    simpl. eauto.
  - destruct (_ =? 0x7C00); [destruct (_ =? 0)|]; eauto.
Qed.

(** *** The sign bit of the widened word *)

Section WidenSign.

Variable h : Z.

Lemma widen_sign_word :
  u32 (Z.shiftl (Z.land h 0x8000) 16) = if half_sign h then 0x80000000 else 0.
Proof.
  unfold half_sign. change 0x8000 with (2 ^ 15).
  rewrite (land_pow2 h 15) by lia.
  destruct (Z.testbit h 15); reflexivity.
Qed.

(** Exponent and mantissa fields stay below bit 31. *)
Lemma lor_fields_sign (xs xe xm : Z) :
  0 <= xe < 2 ^ 31 -> 0 <= xm < 2 ^ 31 ->
  Z.testbit (Z.lor (Z.lor xs xe) xm) 31 = Z.testbit xs 31.
Proof.
  intros He Hm. rewrite !Z.lor_spec.
  rewrite <- (Z.mod_small xe (2 ^ 31)), <- (Z.mod_small xm (2 ^ 31)) by assumption.
  rewrite !Z.mod_pow2_bits_high by lia.
  now rewrite !orb_false_r.
Qed.

Lemma widen_sign_word_bit :
  Z.testbit (u32 (Z.shiftl (Z.land h 0x8000) 16)) 31 = half_sign h.
Proof. rewrite widen_sign_word. destruct (half_sign h); reflexivity. Qed.

(** A field [v] of at most [w] bits, placed [k] bits up, fits under
    bit 31 when [w + k <= 31]. *)
Lemma field_below_sign (v w k : Z) :
  0 <= k -> 0 <= w -> w + k <= 31 -> 0 <= v < 2 ^ w ->
  u32 (Z.shiftl v k) = Z.shiftl v k /\ 0 <= Z.shiftl v k < 2 ^ 31.
Proof.
  intros Hk Hw Hwk Hv. rewrite Z.shiftl_mul_pow2 by assumption.
  assert (Hlt : v * 2 ^ k < 2 ^ 31).
  { apply Z.lt_le_trans with (2 ^ w * 2 ^ k).
    - apply Z.mul_lt_mono_pos_r; lia.
    - rewrite <- Z.pow_add_r by assumption. apply Z.pow_le_mono_r; lia. }
  assert (0 <= v * 2 ^ k) by (apply Z.mul_nonneg_nonneg; lia).
  split; [|lia]. unfold u32. apply Z.mod_small. lia.
Qed.

Lemma half_exp_field : Z.shiftr (Z.land h 0x7C00) 10 = half_exp h.
Proof. unfold half_exp. now rewrite Z.shiftr_land. Qed.

Lemma half_exp_range : 0 <= half_exp h <= 31.
Proof.
  unfold half_exp. change 0x1F with (Z.ones 5).
  rewrite Z.land_ones by lia. change (Z.ones 5) with (2 ^ 5 - 1).
  pose proof (Z.mod_pos_bound (Z.shiftr h 10) (2 ^ 5)). lia.
Qed.

Lemma s32_small (z : Z) : 0 <= z < 2 ^ 31 -> s32 z = z.
Proof.
  intros Hz. unfold s32. rewrite Z.mod_small by lia.
  destruct (Z.ltb_spec z (2 ^ 31)); lia.
Qed.

(** [xs | xe | xm] as built in the denormal and normalized branches:
    the exponent [xes] placed [k] bits up stays below bit 31, and the
    10-bit mantissa is placed just under it. *)
Lemma assembled_sign (xes hm k : Z) :
  10 <= k <= 23 -> 0 <= xes < 2 ^ (31 - k) -> 0 <= hm < 2 ^ 10 ->
  Z.testbit (Z.lor (Z.lor (u32 (Z.shiftl (Z.land h 0x8000) 16))
                          (u32 (Z.shiftl (s32 xes) k)))
                   (u32 (Z.shiftl hm (k - 10)))) 31 = half_sign h.
Proof.
  intros Hk Hxes Hhm.
  assert (Hpow : 2 ^ (31 - k) <= 2 ^ 31) by (apply Z.pow_le_mono_r; lia).
  rewrite s32_small by lia.
  destruct (field_below_sign xes (31 - k) k) as [-> ?]; try lia.
  destruct (field_below_sign hm 10 (k - 10)) as [-> ?]; try lia.
  rewrite lor_fields_sign by lia. apply widen_sign_word_bit.
Qed.

End WidenSign.

Lemma half_exp_all_ones (h : Z) : Z.land h 0x7C00 = 0x7C00 -> half_exp h = 0x1F.
Proof. intros He. now rewrite <- half_exp_field, He. Qed.

Lemma zero_half_sign (h : Z) : Z.testbit (u32 (Z.shiftl h 16)) 31 = half_sign h.
Proof.
  unfold u32, half_sign.
  rewrite Z.mod_pow2_bits_low, Z.shiftl_spec by lia. reflexivity.
Qed.

Lemma infinity_sign (h inf : Z) :
  Z.testbit inf 31 = false ->
  Z.testbit (Z.lor (u32 (Z.shiftl (Z.land h 0x8000) 16)) inf) 31 = half_sign h.
Proof.
  intros Hinf. rewrite Z.lor_spec, widen_sign_word_bit, Hinf. apply orb_false_r.
Qed.

(** Every half that is not a NaN widens to a single with the same sign. *)
Lemma halfp2singles_elem_sign (h : Z) :
  ~ half_is_nan h ->
  exists x, halfp2singles_elem h = Some x /\ single_sign x = half_sign h.
Proof.
  intros Hnan. unfold halfp2singles_elem, single_sign.
  destruct (Z.eqb_spec (Z.land h 0x7FFF) 0) as [|Hnz].
  { eexists. split; [reflexivity | apply zero_half_sign]. }
  pose proof (half_exp_range h) as Hexp. pose proof (half_man_range h) as Hman.
  destruct (Z.eqb_spec (Z.land h 0x7C00) 0) as [He|_].
  - destruct (normalize_spec _ (denormal_man_nonzero h Hnz He)) as (e & hm & -> & Hle).
    rewrite He. change (Z.shiftr 0 10 - 15 + 127) with 112.
    eexists. split; [reflexivity|].
    pose proof (half_man_range hm).
    apply (assembled_sign h (u32 (112 - e)) (Z.land hm 0x03FF) 23); try lia.
    unfold u32. rewrite Z.mod_small; lia.
  - destruct (Z.eqb_spec (Z.land h 0x7C00) 0x7C00) as [He|_].
    + destruct (Z.eqb_spec (Z.land h 0x03FF) 0) as [|Hm].
      * eexists. split; [reflexivity | now apply infinity_sign].
      * exfalso. apply Hnan. split; [now apply half_exp_all_ones | exact Hm].
    + eexists. split; [reflexivity|]. rewrite half_exp_field.
      apply (assembled_sign h (half_exp h - 15 + 127) (Z.land h 0x03FF) 23); lia.
Qed.

(** Every half that is not a NaN widens to a double whose written word
    carries the same sign in its top bit. *)
Lemma halfp2doubles_elem_sign (h : Z) :
  ~ half_is_nan h ->
  exists x, halfp2doubles_elem h = Some x /\ Z.testbit x 31 = half_sign h.
Proof.
  intros Hnan. unfold halfp2doubles_elem.
  destruct (Z.eqb_spec (Z.land h 0x7FFF) 0) as [|Hnz].
  { eexists. split; [reflexivity | apply zero_half_sign]. }
  pose proof (half_exp_range h) as Hexp. pose proof (half_man_range h) as Hman.
  destruct (Z.eqb_spec (Z.land h 0x7C00) 0) as [He|_].
  - destruct (normalize_spec _ (denormal_man_nonzero h Hnz He)) as (e & hm & -> & Hle).
    rewrite He. change (Z.shiftr 0 10 - 15 + 1023) with 1008.
    eexists. split; [reflexivity|].
    pose proof (half_man_range hm).
    apply (assembled_sign h (u32 (1008 - e)) (Z.land hm 0x03FF) 20); try lia.
    unfold u32. rewrite Z.mod_small; lia.
  - destruct (Z.eqb_spec (Z.land h 0x7C00) 0x7C00) as [He|_].
    + destruct (Z.eqb_spec (Z.land h 0x03FF) 0) as [|Hm].
      * eexists. split; [reflexivity | now apply infinity_sign].
      * exfalso. apply Hnan. split; [now apply half_exp_all_ones | exact Hm].
    + eexists. split; [reflexivity|]. rewrite half_exp_field.
      apply (assembled_sign h (half_exp h - 15 + 1023) (Z.land h 0x03FF) 20); lia.
Qed.

(** A NaN of either sign widens to the fixed patterns, sign bit set. *)
Lemma widen_nan (h : Z) :
  Z.land h 0x7C00 = 0x7C00 -> Z.land h 0x03FF <> 0 ->
  halfp2singles_elem h = Some 0xFFC00000 /\ halfp2doubles_elem h = Some 0xFFF80000.
Proof.
  intros He Hm. unfold halfp2singles_elem, halfp2doubles_elem.
  destruct (Z.eqb_spec (Z.land h 0x7FFF) 0) as [H0|_].
  { apply (land_submask h _ 0x7C00) in H0; [congruence | reflexivity]. }
  rewrite He. change (0x7C00 =? 0) with false. change (0x7C00 =? 0x7C00) with true.
  cbv iota. destruct (Z.eqb_spec (Z.land h 0x03FF) 0); [contradiction | now split].
Qed.

Lemma double_sign_of_words (hi lo : Z) :
  is_u32 lo -> double_sign (double_of_words hi lo) = Z.testbit hi 31.
Proof.
  intros Hlo. unfold double_sign, double_of_words.
  rewrite Z.lor_spec, Z.shiftl_spec by lia.
  rewrite <- (Z.mod_small lo (2 ^ 32)) by exact Hlo.
  rewrite Z.mod_pow2_bits_high by lia. apply orb_false_r.
Qed.

(** ** Round trips of the loop bodies *)

Lemma half_exp_mask (h : Z) : Z.land h 0x7C00 = Z.shiftl (half_exp h) 10.
Proof.
  unfold half_exp.
  rewrite Z.shiftl_land, <- Z.ldiff_ones_r, Z.ldiff_land, <- Z.land_assoc by lia.
  reflexivity.
Qed.

Lemma half_fields (h : Z) :
  is_u16 h ->
  h = Z.lor (Z.lor (Z.land h 0x8000) (Z.shiftl (half_exp h) 10)) (Z.land h 0x03FF).
Proof.
  intros Hh. rewrite <- half_exp_mask, <- !Z.land_lor_distr_r.
  change (Z.lor (Z.lor 0x8000 0x7C00) 0x03FF) with (Z.ones 16).
  rewrite Z.land_ones by lia. symmetry. now apply Z.mod_small.
Qed.

Ltac field_facts H :=
  cbv zeta in H;
  repeat match type of H with
         | _ && _ = true => let H' := fresh H in apply andb_true_iff in H as [H H']
         end;
  repeat match goal with
         | H : (_ =? _) = true |- _ => apply Z.eqb_eq in H
         | H : negb _ = true |- _ => apply negb_true_iff in H
         end.

Ltac rewrite_fields :=
  repeat match goal with
         | H : Z.land ?x ?m = _ |- context [Z.land ?x ?m] => rewrite H
         end;
  rewrite ?Z.lor_0_l, ?Z.lor_0_r.

Lemma single_fields_narrow (S E M : Z) :
  sign_field_ok S = true -> single_exp_field_ok E = true -> single_man_field_ok M = true ->
  singles2halfp_elem
    (Z.lor (Z.lor (u32 (Z.shiftl S 16)) (u32 (Z.shiftl (s32 (E - 15 + 127)) 23)))
           (u32 (Z.shiftl M 13)))
  = u16 (Z.lor (Z.lor S (Z.shiftl E 10)) M).
Proof.
  unfold sign_field_ok, single_exp_field_ok, single_man_field_ok.
  set (xs := u32 (Z.shiftl S 16)).
  set (xe := u32 (Z.shiftl (s32 (E - 15 + 127)) 23)).
  set (xm := u32 (Z.shiftl M 13)).
  intros Hs He Hm. field_facts Hs. field_facts He. field_facts Hm.
  unfold singles2halfp_elem. rewrite !Z.land_lor_distr_l. rewrite_fields.
  destruct (Z.eqb_spec (Z.lor xe xm) 0) as [H0|_].
  { apply Z.lor_eq_0_iff in H0 as [H0 _]. rewrite H0 in *. discriminate. }
  repeat match goal with
         | H : ?c = false |- context [if ?c then _ else _] => rewrite H
         end.
  change (0 =? 0) with true. cbv iota.
  repeat match goal with
         | H : u16 _ = _ |- _ => rewrite H; clear H
         end.
  reflexivity.
Qed.

Lemma double_fields_narrow (S E M : Z) :
  sign_field_ok S = true -> double_exp_field_ok E = true -> double_man_field_ok M = true ->
  doubles2halfp_elem
    (Z.lor (Z.lor (u32 (Z.shiftl S 16)) (u32 (Z.shiftl (s32 (E - 15 + 1023)) 20)))
           (u32 (Z.shiftl M 10)))
  = u16 (Z.lor (Z.lor S (Z.shiftl E 10)) M).
Proof.
  unfold sign_field_ok, double_exp_field_ok, double_man_field_ok.
  set (xs := u32 (Z.shiftl S 16)).
  set (xe := u32 (Z.shiftl (s32 (E - 15 + 1023)) 20)).
  set (xm := u32 (Z.shiftl M 10)).
  intros Hs He Hm. field_facts Hs. field_facts He. field_facts Hm.
  unfold doubles2halfp_elem. rewrite !Z.land_lor_distr_l. rewrite_fields.
  destruct (Z.eqb_spec (Z.lor xe xm) 0) as [H0|_].
  { apply Z.lor_eq_0_iff in H0 as [H0 _]. rewrite H0 in *. discriminate. }
  repeat match goal with
         | H : ?c = false |- context [if ?c then _ else _] => rewrite H
         end.
  change (0 =? 0) with true. cbv iota.
  repeat match goal with
         | H : u16 _ = _ |- _ => rewrite H; clear H
         end.
  reflexivity.
Qed.

Lemma sign_field_checked (h : Z) : sign_field_ok (Z.land h 0x8000) = true.
Proof.
  change 0x8000 with (2 ^ 15). rewrite (land_pow2 h 15) by lia.
  destruct (Z.testbit h 15); reflexivity.
Qed.

Lemma exp_fields_checked (E : Z) :
  1 <= E <= 30 -> single_exp_field_ok E = true /\ double_exp_field_ok E = true.
Proof.
  intros HE. apply andb_true_iff.
  apply (check_range (fun E => single_exp_field_ok E && double_exp_field_ok E) 1 30);
    [vm_compute; reflexivity | lia].
Qed.

Lemma man_fields_checked (M : Z) :
  0 <= M < 0x400 -> single_man_field_ok M = true /\ double_man_field_ok M = true.
Proof.
  intros HM. apply andb_true_iff.
  apply (check_range (fun M => single_man_field_ok M && double_man_field_ok M) 0 1024);
    [vm_compute; reflexivity | lia].
Qed.

(** Every normalized half comes back from the two round trips. *)
Lemma normalized_round_trip (h : Z) :
  is_u16 h -> half_exp h <> 0 -> half_exp h <> 0x1F ->
  (exists x, halfp2singles_elem h = Some x /\ singles2halfp_elem x = h) /\
  (exists x, halfp2doubles_elem h = Some x /\ doubles2halfp_elem x = h).
Proof.
  intros Hh Hz Hf.
  pose proof (half_exp_range h) as Hrange.
  pose proof (half_exp_field h) as Hfield.
  destruct (exp_fields_checked (half_exp h)) as [Hes Hed]; [lia|].
  destruct (man_fields_checked (Z.land h 0x03FF) (half_man_range h)) as [Hms Hmd].
  pose proof (sign_field_checked h) as Hs.
  assert (Hback : u16 (Z.lor (Z.lor (Z.land h 0x8000) (Z.shiftl (half_exp h) 10))
                             (Z.land h 0x03FF)) = h).
  { rewrite <- (half_fields h Hh). apply Z.mod_small, Hh. }
  unfold halfp2singles_elem, halfp2doubles_elem.
  destruct (Z.eqb_spec (Z.land h 0x7FFF) 0) as [H0|_].
  { apply (land_submask h _ 0x7C00) in H0; [|reflexivity].
    rewrite H0 in Hfield. change (Z.shiftr 0 10) with 0 in Hfield. congruence. }
  destruct (Z.eqb_spec (Z.land h 0x7C00) 0) as [H0|_].
  { rewrite H0 in Hfield. change (Z.shiftr 0 10) with 0 in Hfield. congruence. }
  destruct (Z.eqb_spec (Z.land h 0x7C00) 0x7C00) as [H1|_].
  { rewrite H1 in Hfield. change (Z.shiftr 0x7C00 10) with 0x1F in Hfield. congruence. }
  rewrite Hfield. split; eexists; (split; [reflexivity|]).
  - rewrite single_fields_narrow by assumption. exact Hback.
  - rewrite double_fields_narrow by assumption. exact Hback.
Qed.

(** Every denormal half of mantissa [hm], of either sign. *)
Lemma denormal_round_trips (hm : Z) :
  0 < hm < 0x400 -> denormal_round_trip hm = true.
Proof.
  intros Hhm.
  apply (check_range denormal_round_trip 1 1023); [vm_compute; reflexivity | lia].
Qed.

(** The round trip of every finite half: the half comes back, except
    for the denormals below [2^-15], which come back as the infinity of
    their sign. *)
Lemma finite_round_trip (h : Z) :
  is_u16 h -> half_exp h <> 0x1F ->
  exists x d,
    halfp2singles_elem h = Some x /\ halfp2doubles_elem h = Some d /\
    ((~ lower_denormal h /\ singles2halfp_elem x = h /\ doubles2halfp_elem d = h) \/
     (lower_denormal h /\
      singles2halfp_elem x = Z.lor (Z.land h 0x8000) 0x7C00 /\
      doubles2halfp_elem d = Z.lor (Z.land h 0x8000) 0x7C00)).
Proof.
  intros Hh Hf.
  destruct (Z.eq_dec (half_exp h) 0) as [Hz|Hz].
  - (* zero or denormal: the half is its sign field and its mantissa *)
    pose proof (half_fields h Hh) as Hsplit.
    rewrite Hz in Hsplit. change (Z.shiftl 0 10) with 0 in Hsplit.
    rewrite Z.lor_0_r in Hsplit.
    pose proof (half_man_range h) as Hman.
    assert (Hsign : Z.land h 0x8000 = 0 \/ Z.land h 0x8000 = 0x8000).
    { change 0x8000 with (2 ^ 15). rewrite (land_pow2 h 15) by lia.
      destruct (Z.testbit h 15); auto. }
    assert (Hclear : Z.land (Z.land h 0x03FF) 0x8000 = 0).
    { rewrite <- Z.land_assoc. change (Z.land 0x03FF 0x8000) with 0. apply Z.land_0_r. }
    assert (Hset : Z.land (Z.lor 0x8000 (Z.land h 0x03FF)) 0x8000 = 0x8000).
    { rewrite Z.land_lor_distr_l, Hclear. reflexivity. }
    assert (Hrt : Z.land h 0x03FF <> 0 -> denormal_round_trip (Z.land h 0x03FF) = true).
    { intros Hm0. apply denormal_round_trips. lia. }
    unfold lower_denormal, half_man. rewrite Hz.
    unfold denormal_round_trip in Hrt. cbv zeta in Hrt. simpl forallb in Hrt.
    rewrite Hclear, Hset in Hrt.
    set (M := Z.land h 0x03FF) in *. clearbody M.
    destruct Hsign as [Hs|Hs]; rewrite Hs in *; clear Hs;
      rewrite ?Z.lor_0_l in Hsplit; subst h.
    + (* sign bit clear *)
      destruct (Z.eq_dec M 0) as [->|Hm0].
      { eexists _, _. split; [reflexivity|]. split; [reflexivity|].
        left. split; [lia | split; reflexivity]. }
      specialize (Hrt Hm0). apply andb_true_iff in Hrt as [Hrt _].
      destruct (halfp2singles_elem M) as [x|]; [|discriminate].
      destruct (halfp2doubles_elem M) as [d|]; [|discriminate].
      apply andb_true_iff in Hrt as [Hx Hd]. apply Z.eqb_eq in Hx, Hd.
      exists x, d. split; [reflexivity|]. split; [reflexivity|].
      destruct (Z.ltb_spec M 0x200).
      * right. split; [lia | now split].
      * left. split; [lia | now split].
    + (* sign bit set *)
      destruct (Z.eq_dec M 0) as [->|Hm0].
      { eexists _, _. split; [reflexivity|]. split; [reflexivity|].
        left. split; [lia | split; reflexivity]. }
      specialize (Hrt Hm0). apply andb_true_iff in Hrt as [_ Hrt].
      rewrite andb_true_r in Hrt.
      destruct (halfp2singles_elem (Z.lor 0x8000 M)) as [x|]; [|discriminate].
      destruct (halfp2doubles_elem (Z.lor 0x8000 M)) as [d|]; [|discriminate].
      apply andb_true_iff in Hrt as [Hx Hd]. apply Z.eqb_eq in Hx, Hd.
      exists x, d. split; [reflexivity|]. split; [reflexivity|].
      destruct (Z.ltb_spec M 0x200).
      * right. split; [lia | now split].
      * left. split; [lia | now split].
  - (* normalized *)
    destruct (normalized_round_trip h Hh Hz Hf) as [(x & Hx & Hxb) (d & Hd & Hdb)].
    exists x, d. split; [exact Hx|]. split; [exact Hd|].
    left. split; [|auto]. intros [He _]. contradiction.
Qed.

(** ** The conversion loop *)

Section ConvertLoop.

Variable elem : Z -> option Z.
Variables sstep tstep : nat.

Lemma store_length (l l' : list Z) (i : nat) (v : Z) :
  store l i v = Some l' -> length l' = length l.
Proof.
  unfold store. case_decide; [|discriminate].
  intros [= <-]. apply length_insert.
Qed.

Lemma store_lookup (l l' : list Z) (i : nat) (v : Z) :
  store l i v = Some l' ->
  l' !! i = Some v /\ forall j, j <> i -> l' !! j = l !! j.
Proof.
  unfold store. case_decide; [|discriminate].
  intros [= <-]. split.
  - now apply list_lookup_insert_eq.
  - intros j Hj. apply list_lookup_insert_ne. congruence.
Qed.

(** One unfolding of the loop, as an inversion principle. *)
Lemma convert_loop_step numel sp tp src tgt tgt' :
  convert_loop elem sstep tstep (S numel) sp tp src tgt = Some tgt' ->
  exists x y tgt1,
    src !! sp = Some x /\ elem x = Some y /\ store tgt tp y = Some tgt1 /\
    convert_loop elem sstep tstep numel (sp + sstep) (tp + tstep) src tgt1 = Some tgt'.
Proof.
  simpl. intros H.
  destruct (src !! sp) as [x|] eqn:Hx; [|discriminate]. simpl in H.
  destruct (elem x) as [y|] eqn:Hy; [|discriminate]. simpl in H.
  destruct (store tgt tp y) as [tgt1|] eqn:Hst; [|discriminate]. simpl in H.
  now exists x, y, tgt1.
Qed.

(** The loop never changes the size of the target buffer. *)
Lemma convert_loop_length numel :
  forall sp tp src tgt tgt',
    convert_loop elem sstep tstep numel sp tp src tgt = Some tgt' ->
    length tgt' = length tgt.
Proof.
  induction numel as [|numel IH]; intros sp tp src tgt tgt' H.
  - now injection H as <-.
  - apply convert_loop_step in H as (x & y & tgt1 & _ & _ & Hst & Hrest).
    rewrite (IH _ _ _ _ _ Hrest). eapply store_length, Hst.
Qed.

(** Words at indices that no turn of the loop writes keep their value. *)
Lemma convert_loop_frame numel :
  forall sp tp src tgt tgt',
    convert_loop elem sstep tstep numel sp tp src tgt = Some tgt' ->
    forall j, (forall i, (i < numel)%nat -> j <> (tp + i * tstep)%nat) ->
              tgt' !! j = tgt !! j.
Proof.
  induction numel as [|numel IH]; intros sp tp src tgt tgt' H j Hj.
  - now injection H as <-.
  - apply convert_loop_step in H as (x & y & tgt1 & _ & _ & Hst & Hrest).
    rewrite (IH _ _ _ _ _ Hrest).
    + apply (store_lookup _ _ _ _ Hst). specialize (Hj 0%nat). lia.
    + intros i Hi. specialize (Hj (S i)). lia.
Qed.

(** Turn [i] reads the source at [sp + i * sstep] and its result is
    what the target holds at [tp + i * tstep] when the loop is over. *)
Lemma convert_loop_written numel :
  (0 < tstep)%nat ->
  forall sp tp src tgt tgt',
    convert_loop elem sstep tstep numel sp tp src tgt = Some tgt' ->
    forall i, (i < numel)%nat ->
      exists x y, src !! (sp + i * sstep)%nat = Some x /\ elem x = Some y /\
                  tgt' !! (tp + i * tstep)%nat = Some y.
Proof.
  intros Hstep.
  induction numel as [|numel IH]; intros sp tp src tgt tgt' H i Hi; [lia|].
  apply convert_loop_step in H as (x & y & tgt1 & Hx & Hy & Hst & Hrest).
  destruct i as [|i].
  - exists x, y. rewrite !Nat.add_0_r. repeat split; try assumption.
    rewrite (convert_loop_frame _ _ _ _ _ _ Hrest).
    + apply (store_lookup _ _ _ _ Hst).
    + intros k _. nia.
  - destruct (IH _ _ _ _ _ Hrest i) as (x' & y' & Hx' & Hy' & Ht'); [lia|].
    exists x', y'.
    replace (sp + S i * sstep)%nat with (sp + sstep + i * sstep)%nat by lia.
    replace (tp + S i * tstep)%nat with (tp + tstep + i * tstep)%nat by lia.
    auto.
Qed.

(** The loop runs to its end when every turn finds its source word,
    the conversion of that word ends, and the target index is inside
    the target buffer. *)
Lemma convert_loop_total numel :
  (forall x, is_Some (elem x)) ->
  forall sp tp src tgt,
    (forall i, (i < numel)%nat -> (sp + i * sstep < length src)%nat) ->
    (forall i, (i < numel)%nat -> (tp + i * tstep < length tgt)%nat) ->
    is_Some (convert_loop elem sstep tstep numel sp tp src tgt).
Proof.
  intros Helem.
  induction numel as [|numel IH]; intros sp tp src tgt Hsrc Htgt; [simpl; eauto|].
  simpl.
  destruct (lookup_lt_is_Some_2 src sp) as [x ->].
  { specialize (Hsrc 0%nat). lia. }
  simpl. destruct (Helem x) as [y ->]. simpl.
  unfold store. case_decide as Hin.
  - simpl. apply IH.
    + intros i Hi. specialize (Hsrc (S i)). lia.
    + intros i Hi. rewrite length_insert. specialize (Htgt (S i)). lia.
  - specialize (Htgt 0%nat). lia.
Qed.

(** Only the source words that the turns read matter. *)
Lemma convert_loop_source numel :
  forall sp tp src1 src2 tgt,
    (forall i, (i < numel)%nat ->
               src1 !! (sp + i * sstep)%nat = src2 !! (sp + i * sstep)%nat) ->
    convert_loop elem sstep tstep numel sp tp src1 tgt =
    convert_loop elem sstep tstep numel sp tp src2 tgt.
Proof.
  induction numel as [|numel IH]; intros sp tp src1 src2 tgt Hsame; [reflexivity|].
  assert (H0 : src1 !! sp = src2 !! sp).
  { specialize (Hsame 0%nat). rewrite Nat.add_0_r in Hsame. apply Hsame. lia. }
  simpl. rewrite <- H0.
  destruct (src1 !! sp) as [x|]; [simpl|reflexivity].
  destruct (elem x) as [y|]; [simpl|reflexivity].
  destruct (store tgt tp y) as [tgt1|]; [simpl|reflexivity].
  apply IH. intros i Hi. specialize (Hsame (S i)).
  replace (sp + sstep + i * sstep)%nat with (sp + S i * sstep)%nat by lia.
  apply Hsame. lia.
Qed.

End ConvertLoop.

(** ** The check block and the process state *)

Lemma statics_of_set_eq (r : routine) (s : statics) (pr : process) :
  statics_of r (set_statics r s pr) = s.
Proof. now destruct r. Qed.

Lemma statics_of_set_ne (r r' : routine) (s : statics) (pr : process) :
  r <> r' -> statics_of r (set_statics r' s pr) = statics_of r pr.
Proof. destruct r, r'; simpl; congruence. Qed.

Lemma statics_of_record (r r' : routine) (pr : process) :
  statics_of r (record_probe r' pr) = statics_of r pr.
Proof. now destruct r. Qed.

Lemma probe_log_set (r : routine) (s : statics) (pr : process) :
  probe_log (set_statics r s pr) = probe_log pr.
Proof. now destruct r. Qed.

Lemma ieee_check_case (p : platform) (r : routine) (pr : process) :
  check_case p r pr (ieee_check p r pr).
Proof.
  unfold ieee_check.
  destruct (Z.eqb_spec (checkieee (statics_of r pr)) 0) as [Hc|Hc].
  - now constructor.
  - assert (Hshape :
      (if one_w0 p =? 0 then (1, one_w1 p) else (0, one_w0 p))
      = (probe_next p, probe_word p)).
    { unfold probe_next, probe_word. now destruct (one_w0 p =? 0). }
    rewrite Hshape.
    destruct (Z.eqb_spec (probe_word p) 0x3FF00000) as [Hw|Hw].
    + now apply check_passed.
    + now apply check_failed.
Qed.

Lemma consistent_start (p : platform) : consistent p process_start.
Proof. intros r. destruct r; simpl; discriminate. Qed.

Lemma ieee_check_consistent (p : platform) (r : routine) (pr : process) :
  consistent p pr -> consistent p (fst (ieee_check p r pr)).
Proof.
  intros Hc. destruct (ieee_check_case p r pr) as [H0|Hn Hp|Hn Hp]; simpl.
  - exact Hc.
  - intros r'. destruct (decide (r' = r)) as [->|Hne].
    + rewrite statics_of_set_eq. simpl. auto.
    + rewrite statics_of_set_ne, statics_of_record by exact Hne. apply Hc.
  - intros r'. destruct (decide (r' = r)) as [->|Hne].
    + rewrite statics_of_set_eq. simpl. contradiction.
    + rewrite statics_of_set_ne, statics_of_record by exact Hne. apply Hc.
Qed.

(** Past the block, on a consistent state: the host is compliant and
    [next] is set. *)
Lemma ieee_check_open (p : platform) (r : routine) (pr pr1 : process) :
  consistent p pr -> ieee_check p r pr = (pr1, true) ->
  ieee_compliant p /\ next (statics_of r pr1) = probe_next p.
Proof.
  intros Hc Hchk. pose proof (ieee_check_case p r pr) as Hcase.
  rewrite Hchk in Hcase. inversion Hcase; subst.
  - now apply Hc.
  - rewrite statics_of_set_eq. now split.
Qed.

Lemma ieee_check_compliant (p : platform) (r : routine) (pr : process) :
  ieee_compliant p -> snd (ieee_check p r pr) = true.
Proof.
  intros Hp. destruct (ieee_check_case p r pr); [reflexivity.. | contradiction].
Qed.

(** ** The four routines, uniformly *)

Lemma call_unfold (p : platform) (r : routine) (pr : process)
    (target source : buffer) (numel : Z) :
  call p r pr target source numel =
  match ieee_check p r pr with
  | (pr1, false) => Return FALSE pr1 target
  | (pr1, true) =>
      match source, target with
      | Some src, Some tgt =>
          finish pr1 (convert_loop (elem_of r) (src_words r) (tgt_words r)
                        (Z.to_nat numel) (src_start r pr1) (tgt_start r pr1) src tgt)
      | _, _ => Return TRUE pr1 target
      end
  end.
Proof. destruct r; reflexivity. Qed.

Lemma elem_of_total (r : routine) (x : Z) : is_Some (elem_of r x).
Proof.
  destruct r; simpl; eauto using halfp2singles_elem_total, halfp2doubles_elem_total.
Qed.

(** A call that returns leaves the process in the state the check block
    produced, and returns [FALSE] exactly when the block did. *)
Lemma call_returns (p : platform) (r : routine) (pr pr' : process)
    (target target' source : buffer) (numel rv : Z) :
  call p r pr target source numel = Return rv pr' target' ->
  pr' = fst (ieee_check p r pr) /\
  rv = (if snd (ieee_check p r pr) then TRUE else FALSE).
Proof.
  rewrite call_unfold. destruct (ieee_check p r pr) as [pr1 [|]]; simpl.
  - destruct source as [src|], target as [tgt|]; try (intros [= <- <- <-]; now split).
    unfold finish. destruct (convert_loop _ _ _ _ _ _ _ _); [|discriminate].
    intros [= <- <- <-]. now split.
  - intros [= <- <- <-]. now split.
Qed.

Lemma reachable_consistent (p : platform) (pr : process) :
  reachable p pr -> consistent p pr.
Proof.
  induction 1 as [|r pr target source numel rv pr' target' _ IH Hcall].
  - apply consistent_start.
  - apply call_returns in Hcall as [-> _]. now apply ieee_check_consistent.
Qed.

Lemma probe_next_cases (p : platform) : probe_next p = 0 \/ probe_next p = 1.
Proof. unfold probe_next. destruct (one_w0 p =? 0); auto. Qed.

Lemma start_bound (r : routine) (p : platform) (pr : process) :
  next (statics_of r pr) = probe_next p ->
  (src_start r pr <= src_words r - 1)%nat /\ (tgt_start r pr <= tgt_words r - 1)%nat.
Proof.
  intros Hn. destruct (probe_next_cases p) as [H|H]; rewrite H in Hn;
    destruct r; simpl in *; rewrite ?Hn; simpl; lia.
Qed.

Lemma turn_indices (p : platform) (r : routine) (pr : process) (i : nat) :
  next (statics_of r pr) = probe_next p ->
  (src_start r pr + i * src_words r)%nat = src_at p r i /\
  (tgt_start r pr + i * tgt_words r)%nat = tgt_at p r i.
Proof.
  intros Hn. unfold high_word, src_at, tgt_at, high_word.
  destruct r; simpl in *; rewrite ?Hn; lia.
Qed.

(** On a compliant host, from a consistent state and with buffers that
    fit, a call converts: it returns [TRUE], the target keeps its size,
    element [i] of the source is converted into element [i] of the
    target, and no other word of the target changes. *)
Lemma call_converts (p : platform) (r : routine) (pr : process)
    (tgt src : list Z) (numel : Z) :
  ieee_compliant p -> consistent p pr -> buffers_fit r numel src tgt ->
  exists pr' tgt',
    call p r pr (Some tgt) (Some src) numel = Return TRUE pr' (Some tgt') /\
    pr' = fst (ieee_check p r pr) /\
    length tgt' = length tgt /\
    (forall i, (i < Z.to_nat numel)%nat ->
       exists x y, src !! src_at p r i = Some x /\ elem_of r x = Some y /\
                   tgt' !! tgt_at p r i = Some y) /\
    (forall j, (forall i, (i < Z.to_nat numel)%nat -> j <> tgt_at p r i) ->
               tgt' !! j = tgt !! j).
Proof.
  intros Hp Hc [Hsrc Htgt]. rewrite call_unfold.
  pose proof (ieee_check_compliant p r pr Hp) as Hopen.
  destruct (ieee_check p r pr) as [pr1 ok] eqn:Hchk. simpl in Hopen. subst ok.
  destruct (ieee_check_open p r pr pr1 Hc Hchk) as [_ Hnext].
  destruct (start_bound r p pr1 Hnext) as [Hs Ht].
  assert (Hsw : (1 <= src_words r)%nat) by (destruct r; simpl; lia).
  assert (Htw : (1 <= tgt_words r)%nat) by (destruct r; simpl; lia).
  destruct (convert_loop_total (elem_of r) (src_words r) (tgt_words r)
              (Z.to_nat numel) (elem_of_total r)
              (src_start r pr1) (tgt_start r pr1) src tgt) as [tgt' Hloop].
  { intros i Hi. nia. }
  { intros i Hi. nia. }
  exists pr1, tgt'. rewrite Hloop. simpl. repeat split.
  - eapply convert_loop_length, Hloop.
  - intros i Hi.
    destruct (turn_indices p r pr1 i Hnext) as [<- <-].
    eapply convert_loop_written; [lia | exact Hloop | exact Hi].
  - intros j Hj. eapply convert_loop_frame; [exact Hloop|].
    intros i Hi. destruct (turn_indices p r pr1 i Hnext) as [_ ->]. now apply Hj.
Qed.

(** Element [i] of a narrowing or widening call, read off the loop
    body. *)
Lemma call_writes (p : platform) (r : routine) (pr : process)
    (tgt src : list Z) (numel : Z) (i : nat) (x y : Z) :
  ieee_compliant p -> reachable p pr -> buffers_fit r numel src tgt ->
  (i < Z.to_nat numel)%nat ->
  src !! src_at p r i = Some x -> elem_of r x = Some y ->
  writes_at (call p r pr (Some tgt) (Some src) numel) (tgt_at p r i) y.
Proof.
  intros Hp Hr Hfit Hi Hx Hy.
  destruct (call_converts p r pr tgt src numel Hp (reachable_consistent p pr Hr) Hfit)
    as (pr' & tgt' & Hcall & _ & _ & Hwr & _).
  exists pr', tgt'. split; [exact Hcall|].
  destruct (Hwr i Hi) as (x' & y' & Hx' & Hy' & Ht).
  rewrite Hx in Hx'. injection Hx' as <-. rewrite Hy in Hy'. now injection Hy' as <-.
Qed.

(** ** The loop bodies in arithmetic *)

Lemma u16_small (z : Z) : 0 <= z < 65536 -> u16 z = z.
Proof. intros Hz. unfold u16. apply Z.mod_small. lia. Qed.

Lemma u32_small (z : Z) : 0 <= z < 4294967296 -> u32 z = z.
Proof. intros Hz. unfold u32. apply Z.mod_small. lia. Qed.

Lemma lor_sum (a b : Z) : Z.land a b = 0 -> Z.lor a b = a + b.
Proof. intros H. pose proof (Z.add_lor_land a b) as Hs. lia. Qed.

Lemma land_high_low (a b k : Z) :
  0 <= k -> 0 <= b < 2 ^ k -> Z.land (a * 2 ^ k) b = 0.
Proof.
  intros Hk Hb. apply Z.bits_inj'. intros n Hn.
  rewrite Z.land_spec, Z.bits_0.
  destruct (Z.lt_ge_cases n k) as [Hlt|Hge].
  - now rewrite Z.mul_pow2_bits_low.
  - rewrite <- (Z.mod_small b (2 ^ k)) by exact Hb.
    rewrite Z.mod_pow2_bits_high by lia. apply andb_false_r.
Qed.

Lemma lor_high_low (a b k : Z) :
  0 <= k -> 0 <= b < 2 ^ k -> Z.lor (a * 2 ^ k) b = a * 2 ^ k + b.
Proof. intros Hk Hb. apply lor_sum. now apply land_high_low. Qed.

Lemma lor_sign16 (s : bool) (v : Z) :
  0 <= v < 2 ^ 15 -> Z.lor (sign16 s) v = sign16 s + v.
Proof.
  intros Hv. destruct s; unfold sign16.
  - apply (lor_high_low 1 v 15); lia.
  - apply Z.lor_0_l.
Qed.

Lemma single_sign_word16 (x : Z) :
  u16 (Z.shiftr (Z.land x 0x80000000) 16) = sign16 (single_sign x).
Proof.
  rewrite sign_word. unfold single_sign, sign16.
  destruct (Z.testbit x 31); reflexivity.
Qed.

Lemma single_exp_div (x : Z) : single_exp x = (x / 2 ^ 23) mod 2 ^ 8.
Proof.
  unfold single_exp. change 0xFF with (Z.ones 8).
  rewrite Z.land_ones, Z.shiftr_div_pow2 by lia. reflexivity.
Qed.

Lemma single_man_mod (x : Z) : Z.land x 0x007FFFFF = x mod 2 ^ 23.
Proof. change 0x007FFFFF with (Z.ones 23). apply Z.land_ones. lia. Qed.

Lemma single_magnitude_split (x : Z) :
  Z.land x 0x7FFFFFFF = single_exp x * 2 ^ 23 + x mod 2 ^ 23.
Proof.
  change 0x7FFFFFFF with (Z.ones 31). rewrite Z.land_ones by lia.
  change (2 ^ 31) with (2 ^ 23 * 2 ^ 8).
  rewrite Z.rem_mul_r, single_exp_div by lia. lia.
Qed.

Lemma single_exp_word (x : Z) : Z.land x 0x7F800000 = single_exp x * 2 ^ 23.
Proof. rewrite single_exp_mask. apply Z.shiftl_mul_pow2. lia. Qed.

Lemma round_bit (xm k : Z) :
  0 <= k ->
  (Z.land xm (2 ^ k) =? 0) = negb (Z.testbit xm k).
Proof.
  intros Hk. rewrite land_pow2 by exact Hk.
  destruct (Z.testbit xm k); [|reflexivity].
  apply Z.eqb_neq. pose proof (Z.pow_pos_nonneg 2 k). lia.
Qed.

Lemma singles2halfp_elem_rounds (x : Z) :
  113 <= single_exp x <= 142 ->
  singles2halfp_elem x =
  sign16 (single_sign x) + Z.shiftr (Z.land x 0x7FFFFFFF - 0x38000000 + 0x1000) 13.
Proof.
  intros He. unfold singles2halfp_elem.
  rewrite single_sign_word16, single_exp_word, single_man_mod, single_magnitude_split.
  assert (Hxm : 0 <= x mod 2 ^ 23 < 2 ^ 23) by (apply Z.mod_pos_bound; lia).
  remember (single_exp x) as e eqn:Ee in *. remember (x mod 2 ^ 23) as xm eqn:Em in *.
  clear Ee Em. change (2 ^ 23) with 8388608 in *.
  destruct (Z.eqb_spec (e * 8388608 + xm) 0); [exfalso; lia|].
  destruct (Z.eqb_spec (e * 8388608) 0); [exfalso; lia|].
  destruct (Z.eqb_spec (e * 8388608) 0x7F800000); [exfalso; lia|].
  assert (Hsh : Z.shiftr (e * 8388608) 23 = e).
  { rewrite Z.shiftr_div_pow2 by lia. apply Z.div_mul. lia. }
  rewrite Hsh.
  assert (Hhes : u32 (e - 127 + 15) = e - 112) by (rewrite u32_small; lia).
  rewrite Hhes.
  destruct (Z.geb_spec (e - 112) 0x1F); [exfalso; lia|].
  destruct (Z.leb_spec (e - 112) 0); [exfalso; lia|].
  assert (Hhe : u16 (u32 (Z.shiftl (e - 112) 10)) = (e - 112) * 1024).
  { rewrite Z.shiftl_mul_pow2 by lia. change (2 ^ 10) with 1024.
    rewrite u32_small, u16_small; lia. }
  assert (Hq : 0 <= xm / 8192 < 1024).
  { split; [apply Z.div_pos; lia | apply Z.div_lt_upper_bound; lia]. }
  assert (Hhm : u16 (Z.shiftr xm 13) = xm / 8192).
  { rewrite Z.shiftr_div_pow2 by lia. change (2 ^ 13) with 8192.
    apply u16_small. lia. }
  rewrite Hhe, Hhm.
  assert (Hl : Z.lor ((e - 112) * 1024) (xm / 8192) = (e - 112) * 1024 + xm / 8192).
  { apply (lor_high_low (e - 112) (xm / 8192) 10); lia. }
  rewrite <- Z.lor_assoc, Hl.
  rewrite lor_sign16 by lia.
  change 0x00001000 with (2 ^ 12). rewrite round_bit by lia.
  rewrite Z.shiftr_div_pow2 by lia. change (2 ^ 13) with 8192.
  assert (Hs : 0 <= sign16 (single_sign x) <= 0x8000)
    by (unfold sign16; destruct (single_sign x); lia).
  pose proof (Z.testbit_spec' xm 12 ltac:(lia)) as Hbit.
  change (2 ^ 12) with 4096 in Hbit.
  destruct (Z.testbit xm 12); cbn [negb Z.b2z] in *.
  - rewrite (u16_small 1), u16_small by lia.
    Z.div_mod_to_equations. lia.
  - rewrite u16_small by lia.
    Z.div_mod_to_equations. lia.
Qed.

Lemma land_one (z : Z) : Z.land z 1 = z mod 2.
Proof. change 1 with (Z.ones 1) at 1. apply Z.land_ones. lia. Qed.

Lemma singles2halfp_elem_gradual (x : Z) :
  single_exp x = 112 ->
  singles2halfp_elem x =
  sign16 (single_sign x) + Z.shiftr (Z.land x 0x007FFFFF + 0x00800000 + 0x2000) 14.
Proof.
  intros He. unfold singles2halfp_elem.
  rewrite single_sign_word16, single_exp_word, single_man_mod, single_magnitude_split.
  assert (Hxm : 0 <= x mod 2 ^ 23 < 2 ^ 23) by (apply Z.mod_pos_bound; lia).
  rewrite He. remember (x mod 2 ^ 23) as xm eqn:Em in *. clear Em.
  change (2 ^ 23) with 8388608 in *.
  destruct (Z.eqb_spec (112 * 8388608 + xm) 0); [exfalso; lia|].
  change (112 * 8388608 =? 0) with false.
  change (112 * 8388608 =? 0x7F800000) with false.
  change (u32 (Z.shiftr (112 * 8388608) 23 - 127 + 15)) with 0.
  change (0 >=? 0x1F) with false. change (0 <=? 0) with true.
  change (u32 (14 - 0)) with 14. change (u32 (13 - 0)) with 13.
  change (14 >? 24) with false. cbv iota.
  assert (Hhid : Z.lor xm 0x00800000 = xm + 8388608).
  { rewrite Z.lor_comm, Z.add_comm. apply (lor_high_low 1 xm 23); lia. }
  rewrite Hhid, !Z.shiftr_div_pow2 by lia.
  change (2 ^ 14) with 16384. change (2 ^ 13) with 8192.
  assert (Hq : 0 <= (xm + 8388608) / 16384 < 1024).
  { split; [apply Z.div_pos; lia | apply Z.div_lt_upper_bound; lia]. }
  rewrite (u16_small ((xm + 8388608) / 16384)) by lia.
  rewrite land_one. change (u16 1) with 1.
  assert (Hs : 0 <= sign16 (single_sign x) <= 0x8000)
    by (unfold sign16; destruct (single_sign x); lia).
  destruct (Z.eqb_spec (((xm + 8388608) / 8192) mod 2) 0) as [Hb|Hb].
  - rewrite lor_sign16, u16_small by lia.
    Z.div_mod_to_equations. lia.
  - rewrite (u16_small ((xm + 8388608) / 16384 + 1)) by lia.
    rewrite lor_sign16, u16_small by lia.
    Z.div_mod_to_equations. lia.
Qed.

Lemma singles2halfp_elem_inf (x : Z) :
  Z.land x 0x7F800000 = 0x7F800000 ->
  Z.land x 0x007FFFFF = 0 ->
  singles2halfp_elem x = Z.lor (Z.shiftr (Z.land x 0x80000000) 16) 0x7C00.
Proof.
  intros He Hm. unfold singles2halfp_elem.
  destruct (Z.eqb_spec (Z.land x 0x7FFFFFFF) 0) as [H0|_].
  - apply (land_submask x _ 0x7F800000) in H0; [congruence | reflexivity].
  - rewrite He, Hm.
    change (0x7F800000 =? 0) with false.
    change (0x7F800000 =? 0x7F800000) with true.
    change (0 =? 0) with true. cbv iota.
    rewrite sign_word. destruct (Z.testbit x 31); reflexivity.
Qed.

Lemma signed_infinity_sum (x : Z) :
  Z.lor (Z.shiftr (Z.land x 0x80000000) 16) 0x7C00 = sign16 (single_sign x) + 0x7C00.
Proof.
  rewrite sign_word. unfold single_sign, sign16.
  destruct (Z.testbit x 31); reflexivity.
Qed.

(** Every single that is not a NaN narrows to the half sign bit plus a
    magnitude that is at most that of infinity. *)
Lemma singles2halfp_elem_shape (x : Z) :
  is_u32 x -> ~ single_is_nan x ->
  exists mag, 0 <= mag <= 0x7C00 /\
              singles2halfp_elem x = sign16 (single_sign x) + mag.
Proof.
  intros Hx Hnan. pose proof (single_exp_range x) as Hr.
  destruct (Z.eq_dec (single_exp x) 0) as [He0|He0].
  { exists 0. split; [lia|]. rewrite singles2halfp_elem_denormal by assumption.
    unfold sign16. destruct (single_sign x); reflexivity. }
  destruct (Z.eq_dec (single_exp x) 0xFF) as [Hef|Hef].
  { exists 0x7C00. split; [lia|].
    rewrite singles2halfp_elem_inf, signed_infinity_sum; try reflexivity.
    - now rewrite single_exp_mask, Hef.
    - destruct (Z.eq_dec (Z.land x 0x007FFFFF) 0) as [|Hm]; [assumption|].
      exfalso. apply Hnan. now split. }
  destruct (Z_lt_le_dec (single_exp x) 112) as [Hlow|Hge].
  { exists 0x7C00. split; [lia|].
    rewrite singles2halfp_elem_wraps, signed_infinity_sum by lia. reflexivity. }
  destruct (Z_le_gt_dec 143 (single_exp x)) as [Hhigh|Hin].
  { exists 0x7C00. split; [lia|].
    rewrite singles2halfp_elem_overflow, signed_infinity_sum by lia. reflexivity. }
  pose proof (single_magnitude_split x) as Hsplit.
  assert (Hxm : 0 <= x mod 2 ^ 23 < 2 ^ 23) by (apply Z.mod_pos_bound; lia).
  change (2 ^ 23) with 8388608 in *.
  destruct (Z.eq_dec (single_exp x) 112) as [He|He].
  - eexists. split; [|apply singles2halfp_elem_gradual; exact He].
    rewrite single_man_mod, Z.shiftr_div_pow2 by lia.
    change (2 ^ 23) with 8388608. change (2 ^ 14) with 16384.
    Z.div_mod_to_equations. lia.
  - eexists. split; [|apply singles2halfp_elem_rounds; lia].
    rewrite Hsplit, Z.shiftr_div_pow2 by lia. change (2 ^ 13) with 8192.
    Z.div_mod_to_equations. lia.
Qed.

Lemma half_fields_of_sum (s : bool) (mag : Z) :
  0 <= mag < 2 ^ 15 ->
  half_sign (sign16 s + mag) = s /\
  half_exp (sign16 s + mag) = mag / 1024 /\
  half_man (sign16 s + mag) = mag mod 1024.
Proof.
  intros Hm. change (2 ^ 15) with 32768 in Hm.
  unfold half_sign, half_exp, half_man.
  change 0x1F with (Z.ones 5). change 0x3FF with (Z.ones 10).
  rewrite !Z.land_ones, Z.shiftr_div_pow2 by lia.
  change (2 ^ 5) with 32. change (2 ^ 10) with 1024.
  split; [|split].
  - destruct s; unfold sign16.
    + apply Z.testbit_true; [lia|]. change (2 ^ 15) with 32768.
      Z.div_mod_to_equations. lia.
    + apply not_true_is_false. intros Hb. apply Z.testbit_true in Hb; [|lia].
      change (2 ^ 15) with 32768 in Hb. revert Hb. Z.div_mod_to_equations. lia.
  - destruct s; unfold sign16; Z.div_mod_to_equations; lia.
  - destruct s; unfold sign16; Z.div_mod_to_equations; lia.
Qed.

Lemma singles2halfp_elem_class (x : Z) :
  is_u32 x ->
  (single_is_nan x -> singles2halfp_elem x = 0xFE00) /\
  (~ single_is_nan x ->
   half_sign (singles2halfp_elem x) = single_sign x /\
   ~ half_is_nan (singles2halfp_elem x)).
Proof.
  intros Hx. split.
  - intros [He Hm]. apply singles2halfp_elem_nan; [|exact Hm].
    now rewrite single_exp_mask, He.
  - intros Hnan.
    destruct (singles2halfp_elem_shape x Hx Hnan) as (mag & Hmag & ->).
    destruct (half_fields_of_sum (single_sign x) mag) as (Hs & He & Hm);
      [change (2 ^ 15) with 32768; lia|].
    split; [exact Hs|].
    intros [He' Hm']. rewrite He in He'. rewrite Hm in Hm'.
    revert He' Hm'. Z.div_mod_to_equations. lia.
Qed.

Lemma high_exp_field (x : Z) : Z.shiftr (Z.land x 0x7FF00000) 20 = high_exp x.
Proof. unfold high_exp. now rewrite Z.shiftr_land. Qed.

Lemma high_exp_range (x : Z) : 0 <= high_exp x <= 2047.
Proof.
  unfold high_exp. change 0x7FF with (Z.ones 11).
  rewrite Z.land_ones by lia. change (Z.ones 11) with (2 ^ 11 - 1).
  pose proof (Z.mod_pos_bound (Z.shiftr x 20) (2 ^ 11)). lia.
Qed.

Lemma high_exp_mask (x : Z) : Z.land x 0x7FF00000 = Z.shiftl (high_exp x) 20.
Proof.
  unfold high_exp.
  rewrite Z.shiftl_land, <- Z.ldiff_ones_r, Z.ldiff_land, <- Z.land_assoc by lia.
  reflexivity.
Qed.

Lemma high_exp_word (x : Z) : Z.land x 0x7FF00000 = high_exp x * 1048576.
Proof. rewrite high_exp_mask. apply (Z.shiftl_mul_pow2 _ 20). lia. Qed.

Lemma high_exp_div (x : Z) : high_exp x = (x / 2 ^ 20) mod 2 ^ 11.
Proof.
  unfold high_exp. change 0x7FF with (Z.ones 11).
  rewrite Z.land_ones, Z.shiftr_div_pow2 by lia. reflexivity.
Qed.

Lemma high_man_mod (x : Z) : Z.land x 0x000FFFFF = x mod 1048576.
Proof. change 0x000FFFFF with (Z.ones 20). apply (Z.land_ones _ 20). lia. Qed.

Lemma high_magnitude_split (x : Z) :
  Z.land x 0x7FFFFFFF = high_exp x * 1048576 + x mod 1048576.
Proof.
  change 0x7FFFFFFF with (Z.ones 31). rewrite Z.land_ones by lia.
  change (2 ^ 31) with (2 ^ 20 * 2 ^ 11).
  rewrite Z.rem_mul_r, high_exp_div by lia. change (2 ^ 20) with 1048576. lia.
Qed.

(** Exponent field all ones: the 20 mantissa bits of the high word
    decide between NaN and infinity. *)
Lemma doubles2halfp_elem_special (x : Z) :
  high_exp x = 0x7FF ->
  doubles2halfp_elem x =
  if high_man x =? 0 then sign16 (high_sign x) + 0x7C00 else 0xFE00.
Proof.
  change (high_sign x) with (single_sign x).
  intros He. unfold doubles2halfp_elem, high_man.
  pose proof (high_exp_word x) as Hw. rewrite He in Hw.
  change (0x7FF * 1048576) with 0x7FF00000 in Hw.
  destruct (Z.eqb_spec (Z.land x 0x7FFFFFFF) 0) as [H0|_].
  { apply (land_submask x _ 0x7FF00000) in H0; [congruence | reflexivity]. }
  rewrite Hw. change (0x7FF00000 =? 0) with false.
  change (0x7FF00000 =? 0x7FF00000) with true. cbv iota.
  destruct (Z.land x 0x000FFFFF =? 0); [|reflexivity].
  rewrite <- signed_infinity_sum, sign_word.
  destruct (Z.testbit x 31); reflexivity.
Qed.

(** Exponent field zero: the zero of the sign. *)
Lemma doubles2halfp_elem_denormal (x : Z) :
  is_u32 x -> high_exp x = 0 ->
  doubles2halfp_elem x = sign16 (high_sign x).
Proof.
  change (high_sign x) with (single_sign x).
  intros Hx He. unfold doubles2halfp_elem, single_sign, sign16.
  pose proof (high_exp_word x) as Hw. rewrite He in Hw.
  change (0 * 1048576) with 0 in Hw.
  destruct (Z.eqb_spec (Z.land x 0x7FFFFFFF) 0) as [H0|_].
  - assert (Hsplit : x = Z.lor (Z.land x 0x80000000) (Z.land x 0x7FFFFFFF)).
    { rewrite <- Z.land_lor_distr_r.
      change (Z.lor 0x80000000 0x7FFFFFFF) with (Z.ones 32).
      rewrite Z.land_ones by lia. symmetry. now apply Z.mod_small. }
    rewrite H0, Z.lor_0_r, sign_word in Hsplit.
    destruct (Z.testbit x 31); rewrite Hsplit; reflexivity.
  - rewrite Hw. change (0 =? 0) with true. cbv iota.
    rewrite sign_word. destruct (Z.testbit x 31); reflexivity.
Qed.

(** A normalized exponent outside [1008, 1038]: signed infinity, above
    the half range and, because [hes] is unsigned, below it as well. *)
Lemma doubles2halfp_elem_out_of_range (x : Z) :
  high_exp x <> 0 -> high_exp x <> 0x7FF ->
  high_exp x < 1008 \/ 1039 <= high_exp x ->
  doubles2halfp_elem x = sign16 (high_sign x) + 0x7C00.
Proof.
  change (high_sign x) with (single_sign x).
  intros Hz Hf Hout. unfold doubles2halfp_elem.
  pose proof (high_exp_range x) as Hr.
  rewrite high_exp_word, high_magnitude_split.
  assert (Hxm : 0 <= x mod 1048576 < 1048576) by (apply Z.mod_pos_bound; lia).
  remember (high_exp x) as e eqn:Ee in *. remember (x mod 1048576) as xm eqn:Em in *.
  clear Ee Em.
  destruct (Z.eqb_spec (e * 1048576 + xm) 0); [exfalso; lia|].
  destruct (Z.eqb_spec (e * 1048576) 0); [exfalso; lia|].
  destruct (Z.eqb_spec (e * 1048576) 0x7FF00000); [exfalso; lia|].
  assert (Hsh : Z.shiftr (e * 1048576) 20 = e).
  { rewrite Z.shiftr_div_pow2 by lia. apply Z.div_mul. lia. }
  rewrite Hsh.
  assert (Hhes : 0x1F <= u32 (e - 1023 + 15)).
  { destruct Hout as [Hlow|Hhigh].
    - assert (H : u32 (e - 1023 + 15) = e - 1008 + 4294967296).
      { unfold u32. symmetry. apply Z.mod_unique with (q := -1); lia. }
      lia.
    - rewrite u32_small; lia. }
  destruct (Z.geb_spec (u32 (e - 1023 + 15)) 0x1F); [|exfalso; lia].
  rewrite <- signed_infinity_sum, sign_word.
  destruct (Z.testbit x 31); reflexivity.
Qed.

(** Exponent field from 1009 to 1038: the magnitude re-biased, rounded
    at bit 9 of the high word and cut by ten bits. *)
Lemma doubles2halfp_elem_rounds (x : Z) :
  1009 <= high_exp x <= 1038 ->
  doubles2halfp_elem x =
  sign16 (high_sign x) + Z.shiftr (Z.land x 0x7FFFFFFF - 0x3F000000 + 0x200) 10.
Proof.
  change (high_sign x) with (single_sign x).
  intros He. unfold doubles2halfp_elem.
  rewrite single_sign_word16, high_exp_word, high_man_mod, high_magnitude_split.
  assert (Hxm : 0 <= x mod 1048576 < 1048576) by (apply Z.mod_pos_bound; lia).
  remember (high_exp x) as e eqn:Ee in *. remember (x mod 1048576) as xm eqn:Em in *.
  clear Ee Em.
  destruct (Z.eqb_spec (e * 1048576 + xm) 0); [exfalso; lia|].
  destruct (Z.eqb_spec (e * 1048576) 0); [exfalso; lia|].
  destruct (Z.eqb_spec (e * 1048576) 0x7FF00000); [exfalso; lia|].
  assert (Hsh : Z.shiftr (e * 1048576) 20 = e).
  { rewrite Z.shiftr_div_pow2 by lia. apply Z.div_mul. lia. }
  rewrite Hsh.
  assert (Hhes : u32 (e - 1023 + 15) = e - 1008) by (rewrite u32_small; lia).
  rewrite Hhes.
  destruct (Z.geb_spec (e - 1008) 0x1F); [exfalso; lia|].
  destruct (Z.leb_spec (e - 1008) 0); [exfalso; lia|].
  assert (Hhe : u16 (u32 (Z.shiftl (e - 1008) 10)) = (e - 1008) * 1024).
  { rewrite Z.shiftl_mul_pow2 by lia. change (2 ^ 10) with 1024.
    rewrite u32_small, u16_small; lia. }
  assert (Hq : 0 <= xm / 1024 < 1024).
  { split; [apply Z.div_pos; lia | apply Z.div_lt_upper_bound; lia]. }
  assert (Hhm : u16 (Z.shiftr xm 10) = xm / 1024).
  { rewrite Z.shiftr_div_pow2 by lia. change (2 ^ 10) with 1024.
    apply u16_small. lia. }
  rewrite Hhe, Hhm.
  assert (Hl : Z.lor ((e - 1008) * 1024) (xm / 1024) = (e - 1008) * 1024 + xm / 1024).
  { apply (lor_high_low (e - 1008) (xm / 1024) 10); lia. }
  rewrite <- Z.lor_assoc, Hl.
  rewrite lor_sign16 by lia.
  change 0x00000200 with (2 ^ 9). rewrite round_bit by lia.
  rewrite Z.shiftr_div_pow2 by lia. change (2 ^ 10) with 1024.
  assert (Hs : 0 <= sign16 (single_sign x) <= 0x8000)
    by (unfold sign16; destruct (single_sign x); lia).
  pose proof (Z.testbit_spec' xm 9 ltac:(lia)) as Hbit.
  change (2 ^ 9) with 512 in Hbit.
  destruct (Z.testbit xm 9); cbn [negb Z.b2z] in *.
  - rewrite (u16_small 1), u16_small by lia.
    Z.div_mod_to_equations. lia.
  - rewrite u16_small by lia.
    Z.div_mod_to_equations. lia.
Qed.

(** Exponent field 1008: a half denormal, rounded at bit 10 of the
    mantissa with its hidden bit. *)
Lemma doubles2halfp_elem_gradual (x : Z) :
  high_exp x = 1008 ->
  doubles2halfp_elem x =
  sign16 (high_sign x) + Z.shiftr (Z.land x 0x000FFFFF + 0x00100000 + 0x400) 11.
Proof.
  change (high_sign x) with (single_sign x).
  intros He. unfold doubles2halfp_elem.
  rewrite single_sign_word16, high_exp_word, high_man_mod, high_magnitude_split.
  assert (Hxm : 0 <= x mod 1048576 < 1048576) by (apply Z.mod_pos_bound; lia).
  rewrite He. remember (x mod 1048576) as xm eqn:Em in *. clear Em.
  destruct (Z.eqb_spec (1008 * 1048576 + xm) 0); [exfalso; lia|].
  change (1008 * 1048576 =? 0) with false.
  change (1008 * 1048576 =? 0x7FF00000) with false.
  change (u32 (Z.shiftr (1008 * 1048576) 20 - 1023 + 15)) with 0.
  change (0 >=? 0x1F) with false. change (0 <=? 0) with true.
  change (u32 (10 - 0)) with 10. change (u32 (11 - 0)) with 11.
  change (10 >? 21) with false. cbv iota.
  assert (Hhid : Z.lor xm 0x00100000 = xm + 1048576).
  { rewrite Z.lor_comm, Z.add_comm. apply (lor_high_low 1 xm 20); lia. }
  rewrite Hhid, !Z.shiftr_div_pow2 by lia.
  change (2 ^ 11) with 2048. change (2 ^ 10) with 1024.
  assert (Hq : 0 <= (xm + 1048576) / 2048 < 1024).
  { split; [apply Z.div_pos; lia | apply Z.div_lt_upper_bound; lia]. }
  rewrite (u16_small ((xm + 1048576) / 2048)) by lia.
  rewrite land_one. change (u16 1) with 1.
  assert (Hs : 0 <= sign16 (single_sign x) <= 0x8000)
    by (unfold sign16; destruct (single_sign x); lia).
  destruct (Z.eqb_spec (((xm + 1048576) / 1024) mod 2) 0) as [Hb|Hb].
  - rewrite lor_sign16, u16_small by lia.
    Z.div_mod_to_equations. lia.
  - rewrite (u16_small ((xm + 1048576) / 2048 + 1)) by lia.
    rewrite lor_sign16, u16_small by lia.
    Z.div_mod_to_equations. lia.
Qed.

Lemma lor_sign32 (s : bool) (v : Z) :
  0 <= v < 2147483648 -> Z.lor (sign32 s) v = sign32 s + v.
Proof.
  intros Hv. destruct s; unfold sign32.
  - apply (lor_high_low 1 v 31); lia.
  - apply Z.lor_0_l.
Qed.

Lemma half_man_mod (h : Z) : Z.land h 0x03FF = h mod 1024.
Proof. change 0x03FF with (Z.ones 10). apply (Z.land_ones _ 10). lia. Qed.

(** The word a normalized half widens to, as a sum of its three fields:
    [k] is the position of the wide exponent field and [bias] what the
    re-biasing adds. *)
Lemma widened_normal (h k bias : Z) :
  10 <= k <= 23 -> 0 <= bias -> bias + 31 < 2 ^ (31 - k) ->
  0 < half_exp h ->
  Z.lor (Z.lor (u32 (Z.shiftl (Z.land h 0x8000) 16))
               (u32 (Z.shiftl (s32 (half_exp h - 15 + (bias + 15))) k)))
        (u32 (Z.shiftl (Z.land h 0x03FF) (k - 10)))
  = sign32 (half_sign h) + (half_exp h + bias) * 2 ^ k + half_man h * 2 ^ (k - 10).
Proof.
  intros Hk Hb Hfit Hpos.
  pose proof (half_exp_range h) as He. pose proof (half_man_range h) as Hm.
  rewrite widen_sign_word. fold (sign32 (half_sign h)). fold (half_man h) in *.
  replace (half_exp h - 15 + (bias + 15)) with (half_exp h + bias) by lia.
  assert (Hpow : 2 ^ (31 - k) <= 2 ^ 31) by (apply Z.pow_le_mono_r; lia).
  rewrite s32_small by lia.
  destruct (field_below_sign (half_exp h + bias) (31 - k) k) as [-> Hxe]; try lia.
  destruct (field_below_sign (half_man h) 10 (k - 10)) as [-> Hxm]; try lia.
  rewrite !Z.shiftl_mul_pow2 in * by lia.
  assert (Hlow : 0 <= half_man h * 2 ^ (k - 10) < 2 ^ k).
  { replace (2 ^ k) with (2 ^ 10 * 2 ^ (k - 10))
      by (rewrite <- Z.pow_add_r by lia; f_equal; lia).
    pose proof (Z.pow_pos_nonneg 2 (k - 10)). nia. }
  rewrite <- Z.lor_assoc, lor_high_low by lia.
  assert (Hall : 0 <= (half_exp h + bias) * 2 ^ k + half_man h * 2 ^ (k - 10) < 2147483648).
  { assert (Htop : (half_exp h + bias + 1) * 2 ^ k <= 2 ^ 31).
    { replace (2 ^ 31) with (2 ^ (31 - k) * 2 ^ k)
        by (rewrite <- Z.pow_add_r by lia; f_equal; lia).
      apply Z.mul_le_mono_nonneg_r; [apply Z.pow_nonneg|]; lia. }
    change (2 ^ 31) with 2147483648 in Htop.
    pose proof (Z.pow_pos_nonneg 2 k). nia. }
  rewrite lor_sign32 by lia. lia.
Qed.

Lemma halfp2singles_elem_normal (h : Z) :
  half_exp h <> 0 -> half_exp h <> 0x1F ->
  halfp2singles_elem h =
  Some (sign32 (half_sign h) + (half_exp h + 112) * 8388608 + half_man h * 8192).
Proof.
  intros Hz Hf. pose proof (half_exp_range h) as He.
  pose proof (half_exp_field h) as Hfield.
  unfold halfp2singles_elem.
  destruct (Z.eqb_spec (Z.land h 0x7FFF) 0) as [H0|_].
  { apply (land_submask h _ 0x7C00) in H0; [|reflexivity].
    rewrite H0 in Hfield. change (Z.shiftr 0 10) with 0 in Hfield. congruence. }
  destruct (Z.eqb_spec (Z.land h 0x7C00) 0) as [H0|_].
  { rewrite H0 in Hfield. change (Z.shiftr 0 10) with 0 in Hfield. congruence. }
  destruct (Z.eqb_spec (Z.land h 0x7C00) 0x7C00) as [H1|_].
  { rewrite H1 in Hfield. change (Z.shiftr 0x7C00 10) with 0x1F in Hfield. congruence. }
  rewrite Hfield. f_equal.
  apply (widened_normal h 23 112); [lia | lia | | lia].
  change (2 ^ (31 - 23)) with 256. lia.
Qed.

Lemma halfp2doubles_elem_normal (h : Z) :
  half_exp h <> 0 -> half_exp h <> 0x1F ->
  halfp2doubles_elem h =
  Some (sign32 (half_sign h) + (half_exp h + 1008) * 1048576 + half_man h * 1024).
Proof.
  intros Hz Hf. pose proof (half_exp_range h) as He.
  pose proof (half_exp_field h) as Hfield.
  unfold halfp2doubles_elem.
  destruct (Z.eqb_spec (Z.land h 0x7FFF) 0) as [H0|_].
  { apply (land_submask h _ 0x7C00) in H0; [|reflexivity].
    rewrite H0 in Hfield. change (Z.shiftr 0 10) with 0 in Hfield. congruence. }
  destruct (Z.eqb_spec (Z.land h 0x7C00) 0) as [H0|_].
  { rewrite H0 in Hfield. change (Z.shiftr 0 10) with 0 in Hfield. congruence. }
  destruct (Z.eqb_spec (Z.land h 0x7C00) 0x7C00) as [H1|_].
  { rewrite H1 in Hfield. change (Z.shiftr 0x7C00 10) with 0x1F in Hfield. congruence. }
  rewrite Hfield. f_equal.
  apply (widened_normal h 20 1008); [lia | lia | | lia].
  change (2 ^ (31 - 20)) with 2048. lia.
Qed.

Lemma single_fields_of_sum (s : bool) (e m : Z) :
  0 <= e < 256 -> 0 <= m < 8388608 ->
  single_sign (sign32 s + e * 8388608 + m) = s /\
  single_exp (sign32 s + e * 8388608 + m) = e /\
  single_man (sign32 s + e * 8388608 + m) = m.
Proof.
  intros He Hm. unfold single_sign, single_man.
  rewrite single_exp_div. change 0x7FFFFF with (Z.ones 23).
  rewrite Z.land_ones by lia.
  change (2 ^ 23) with 8388608. change (2 ^ 8) with 256.
  split; [|split].
  - destruct s; unfold sign32.
    + apply Z.testbit_true; [lia|]. change (2 ^ 31) with 2147483648.
      Z.div_mod_to_equations. lia.
    + apply not_true_is_false. intros Hb. apply Z.testbit_true in Hb; [|lia].
      change (2 ^ 31) with 2147483648 in Hb. revert Hb. Z.div_mod_to_equations. lia.
  - destruct s; unfold sign32; Z.div_mod_to_equations; lia.
  - destruct s; unfold sign32; Z.div_mod_to_equations; lia.
Qed.

Lemma double_fields_of_sum (s : bool) (e m lo : Z) :
  0 <= e < 2048 -> 0 <= m < 1048576 -> 0 <= lo < 4294967296 ->
  double_sign (double_of_words (sign32 s + e * 1048576 + m) lo) = s /\
  double_exp (double_of_words (sign32 s + e * 1048576 + m) lo) = e /\
  double_man (double_of_words (sign32 s + e * 1048576 + m) lo) = m * 4294967296 + lo.
Proof.
  intros He Hm Hlo. unfold double_of_words.
  rewrite Z.shiftl_mul_pow2 by lia.
  rewrite (lor_high_low _ lo 32) by (change (2 ^ 32) with 4294967296; lia).
  unfold double_sign, double_exp, double_man.
  change 0x7FF with (Z.ones 11).
  rewrite !Z.land_ones, Z.shiftr_div_pow2 by lia.
  change (2 ^ 32) with 4294967296. change (2 ^ 52) with 4503599627370496.
  change (2 ^ 11) with 2048.
  split; [|split].
  - destruct s; unfold sign32.
    + apply Z.testbit_true; [lia|]. change (2 ^ 63) with 9223372036854775808.
      Z.div_mod_to_equations. lia.
    + apply not_true_is_false. intros Hb. apply Z.testbit_true in Hb; [|lia].
      change (2 ^ 63) with 9223372036854775808 in Hb.
      revert Hb. Z.div_mod_to_equations. lia.
  - destruct s; unfold sign32; Z.div_mod_to_equations; lia.
  - destruct s; unfold sign32; Z.div_mod_to_equations; lia.
Qed.

Lemma pow2_split (a b : Z) : 0 <= a -> 0 <= b -> 2 ^ (a + b) = 2 ^ a * 2 ^ b.
Proof. intros. now apply Z.pow_add_r. Qed.

(** A normalized half and the words it widens to have the same
    magnitude. *)
Lemma normal_widens_exactly (h : Z) :
  half_exp h <> 0 -> half_exp h <> 0x1F ->
  exists x d,
    halfp2singles_elem h = Some x /\ halfp2doubles_elem h = Some d /\
    single_exp x = half_exp h + 112 /\
    single_magnitude x = half_magnitude h * 2 ^ 125 /\
    double_exp (double_of_words d 0) = half_exp h + 1008 /\
    double_magnitude (double_of_words d 0) = half_magnitude h * 2 ^ 1050.
Proof.
  intros Hz Hf. pose proof (half_exp_range h) as He.
  pose proof (half_man_range h) as Hm. fold (half_man h) in Hm.
  change 0x400 with 1024 in Hm.
  eexists _, _.
  split; [now apply halfp2singles_elem_normal|].
  split; [now apply halfp2doubles_elem_normal|].
  destruct (single_fields_of_sum (half_sign h) (half_exp h + 112) (half_man h * 8192))
    as (_ & Hse & Hsm); [lia | lia |].
  destruct (double_fields_of_sum (half_sign h) (half_exp h + 1008) (half_man h * 1024) 0)
    as (_ & Hde & Hdm); [lia | lia | lia |].
  unfold single_magnitude, double_magnitude, half_magnitude.
  rewrite Hse, Hsm, Hde, Hdm.
  destruct (Z.eqb_spec (half_exp h) 0); [contradiction|].
  destruct (Z.eqb_spec (half_exp h + 112) 0); [lia|].
  destruct (Z.eqb_spec (half_exp h + 1008) 0); [lia|].
  repeat split.
  - replace (half_exp h + 112 - 1) with ((half_exp h - 1) + 112) by lia.
    rewrite pow2_split by lia.
    change (2 ^ 125) with (2 ^ 13 * 2 ^ 112). change (2 ^ 23) with (2 ^ 10 * 2 ^ 13).
    change 8192 with (2 ^ 13). ring.
  - replace (half_exp h + 1008 - 1) with ((half_exp h - 1) + 1008) by lia.
    rewrite pow2_split by lia.
    change (2 ^ 1050) with (2 ^ 42 * 2 ^ 1008). change (2 ^ 52) with (2 ^ 10 * 2 ^ 42).
    change (half_man h * 1024 * 4294967296 + 0) with (half_man h * 2 ^ 10 * 2 ^ 32 + 0).
    change (2 ^ 42) with (2 ^ 10 * 2 ^ 32). ring.
Qed.

Lemma denormals_widen_exactly (hm : Z) :
  0 < hm < 0x400 -> denormal_widens_exactly hm = true.
Proof.
  intros Hhm.
  apply (check_range denormal_widens_exactly 1 1023); [vm_compute; reflexivity | lia].
Qed.

(** A half with a zero exponent field is its mantissa, with or without
    the sign bit. *)
Lemma half_exp_zero_cases (h : Z) :
  is_u16 h -> half_exp h = 0 ->
  0 <= half_man h < 0x400 /\ (h = half_man h \/ h = Z.lor 0x8000 (half_man h)).
Proof.
  intros Hh Hz. pose proof (half_fields h Hh) as Hsplit.
  rewrite Hz in Hsplit. change (Z.shiftl 0 10) with 0 in Hsplit.
  rewrite Z.lor_0_r in Hsplit. fold (half_man h) in Hsplit.
  split; [apply half_man_range|].
  change 0x8000 with (2 ^ 15) in Hsplit. rewrite (land_pow2 h 15) in Hsplit by lia.
  destruct (Z.testbit h 15); [right | left]; exact Hsplit.
Qed.

(** Every finite half widens to words of the same sign and the same
    magnitude, and a finite half that is not zero widens to normalized
    words. *)
Lemma finite_widens_exactly (h : Z) :
  is_u16 h -> half_exp h <> 0x1F ->
  exists x d,
    halfp2singles_elem h = Some x /\ halfp2doubles_elem h = Some d /\
    single_sign x = half_sign h /\
    single_magnitude x = half_magnitude h * 2 ^ 125 /\
    double_sign (double_of_words d 0) = half_sign h /\
    double_magnitude (double_of_words d 0) = half_magnitude h * 2 ^ 1050 /\
    (Z.land h 0x7FFF <> 0 ->
     103 <= single_exp x <= 142 /\ 999 <= double_exp (double_of_words d 0) <= 1038).
Proof.
  intros Hh Hf.
  assert (Hnan : ~ half_is_nan h) by (intros [He _]; contradiction).
  destruct (halfp2singles_elem_sign h Hnan) as (x & Hx & Hsx).
  destruct (halfp2doubles_elem_sign h Hnan) as (d & Hd & Hsd).
  exists x, d. split; [exact Hx|]. split; [exact Hd|]. split; [exact Hsx|].
  assert (Hds : double_sign (double_of_words d 0) = half_sign h).
  { rewrite double_sign_of_words; [exact Hsd | unfold is_u32; lia]. }
  pose proof (half_exp_range h) as Her.
  destruct (Z.eq_dec (half_exp h) 0) as [Hz|Hz].
  - destruct (half_exp_zero_cases h Hh Hz) as [Hm Hcases].
    destruct (Z.eq_dec (half_man h) 0) as [Hm0|Hm0].
    + (* a zero *)
      rewrite Hm0 in Hcases.
      assert (Hzero : Z.land h 0x7FFF = 0) by (destruct Hcases as [-> | ->]; reflexivity).
      split; [|split; [exact Hds|split; [|intros Hne; contradiction]]].
      * destruct Hcases as [-> | ->]; injection Hx as <-; vm_compute; reflexivity.
      * destruct Hcases as [-> | ->]; injection Hd as <-; vm_compute; reflexivity.
    + (* a denormal *)
      pose proof (denormals_widen_exactly (half_man h) ltac:(lia)) as Hall.
      unfold denormal_widens_exactly in Hall. rewrite forallb_forall in Hall.
      assert (Hin : In h [half_man h; Z.lor 0x8000 (half_man h)]).
      { destruct Hcases as [Hc|Hc]; [left | right; left]; congruence. }
      specialize (Hall h Hin). cbv beta in Hall. rewrite Hx, Hd in Hall.
      repeat (apply andb_true_iff in Hall as [Hall ?]).
      apply Z.eqb_eq in Hall.
      repeat match goal with
             | H : (_ =? _) = true |- _ => apply Z.eqb_eq in H
             | H : (_ <=? _) = true |- _ => apply Z.leb_le in H
             end.
      split; [assumption|]. split; [exact Hds|]. split; [assumption|].
      intros _. lia.
  - destruct (normal_widens_exactly h Hz Hf) as (x' & d' & Hx' & Hd' & He1 & Hm1 & He2 & Hm2).
    rewrite Hx in Hx'. injection Hx' as <-. rewrite Hd in Hd'. injection Hd' as <-.
    split; [exact Hm1|]. split; [exact Hds|]. split; [exact Hm2|].
    intros _. lia.
Qed.

(** * The properties of the specification *)

(** ** Narrowing singles *)

(** C2.  A single whose exponent field is all ones and whose mantissa
    field is not zero (a NaN of either sign, with any payload) is
    narrowed by [singles2halfp] to the half pattern [0xFE00], wherever it
    stands in the source buffer. *)
Theorem C2_single_nan_narrows_to_FE00
    (p : platform) (pr : process) (tgt src : list Z) (numel : Z) (i : nat) (x : Z) :
  ieee_compliant p -> reachable p pr ->
  buffers_fit Singles2halfp numel src tgt ->
  (i < Z.to_nat numel)%nat -> src !! i = Some x ->
  single_exp x = 0xFF -> single_man x <> 0 ->
  writes_at (singles2halfp p pr (Some tgt) (Some src) numel) i 0xFE00.
Proof.
  intros Hp Hr Hfit Hi Hx He Hm.
  apply (call_writes p Singles2halfp pr tgt src numel i x); try assumption.
  simpl. f_equal. apply singles2halfp_elem_nan.
  - now rewrite single_exp_mask, He.
  - exact Hm.
Qed.

Lemma C2_witness :
  writes_at (singles2halfp little_endian_ieee process_start
               (Some [0; 0]) (Some [0x3F800000; 0x7F800001]) 2) 1 0xFE00.
Proof.
  apply (C2_single_nan_narrows_to_FE00 little_endian_ieee process_start
           [0; 0] [0x3F800000; 0x7F800001] 2 1 0x7F800001).
  - reflexivity.
  - constructor.
  - split; simpl; lia.
  - simpl; lia.
  - reflexivity.
  - reflexivity.
  - discriminate.
Defined.

(** C5.  A normalized single (exponent field neither zero nor all
    ones) whose exponent re-biased for the half format, the field minus
    127 plus 15, is at least 31 is narrowed by [singles2halfp] to signed
    infinity: the sign bit moved down to bit 15, together with [0x7C00]. *)
Theorem C5_single_overflow_narrows_to_infinity
    (p : platform) (pr : process) (tgt src : list Z) (numel : Z) (i : nat) (x : Z) :
  ieee_compliant p -> reachable p pr ->
  buffers_fit Singles2halfp numel src tgt ->
  (i < Z.to_nat numel)%nat -> src !! i = Some x ->
  single_exp x <> 0 -> single_exp x <> 0xFF ->
  single_exp x - 127 + 15 >= 31 ->
  writes_at (singles2halfp p pr (Some tgt) (Some src) numel) i
            (Z.lor (Z.shiftr (Z.land x 0x80000000) 16) 0x7C00).
Proof.
  intros Hp Hr Hfit Hi Hx Hz Hf Hbig.
  apply (call_writes p Singles2halfp pr tgt src numel i x); try assumption.
  simpl. f_equal. now apply singles2halfp_elem_overflow.
Qed.

Lemma C5_witness :
  writes_at (singles2halfp big_endian_ieee process_start
               (Some [0]) (Some [0xC7800000]) 1) 0 0xFC00.
Proof.
  apply (C5_single_overflow_narrows_to_infinity big_endian_ieee process_start
           [0] [0xC7800000] 1 0 0xC7800000).
  - reflexivity.
  - constructor.
  - split; simpl; lia.
  - simpl; lia.
  - reflexivity.
  - discriminate.
  - discriminate.
  - vm_compute. discriminate.
Defined.

(** C6.  [singles2halfp] narrows the single [0x00000000] (+0.0) to the
    half [0x0000] and the single [0x80000000] (-0.0) to the half
    [0x8000], wherever the zero stands in the source buffer. *)
Theorem C6_signed_zero_is_preserved
    (p : platform) (pr : process) (tgt src : list Z) (numel : Z) (i : nat) :
  ieee_compliant p -> reachable p pr ->
  buffers_fit Singles2halfp numel src tgt ->
  (i < Z.to_nat numel)%nat ->
  (src !! i = Some 0x00000000 ->
   writes_at (singles2halfp p pr (Some tgt) (Some src) numel) i 0x0000) /\
  (src !! i = Some 0x80000000 ->
   writes_at (singles2halfp p pr (Some tgt) (Some src) numel) i 0x8000).
Proof.
  intros Hp Hr Hfit Hi. split; intros Hx.
  - now apply (call_writes p Singles2halfp pr tgt src numel i 0x00000000).
  - now apply (call_writes p Singles2halfp pr tgt src numel i 0x80000000).
Qed.

Lemma C6_witness :
  writes_at (singles2halfp little_endian_ieee process_start
               (Some [7; 7]) (Some [0x00000000; 0x80000000]) 2) 0 0x0000 /\
  writes_at (singles2halfp little_endian_ieee process_start
               (Some [7; 7]) (Some [0x00000000; 0x80000000]) 2) 1 0x8000.
Proof.
  split.
  - apply (C6_signed_zero_is_preserved little_endian_ieee process_start
             [7; 7] [0x00000000; 0x80000000] 2 0);
      [reflexivity | constructor | split; simpl; lia | simpl; lia | reflexivity].
  - apply (C6_signed_zero_is_preserved little_endian_ieee process_start
             [7; 7] [0x00000000; 0x80000000] 2 1);
      [reflexivity | constructor | split; simpl; lia | simpl; lia | reflexivity].
Defined.

(** C4.  What [singles2halfp] does below the half range.  The single
    [0x33800000] is [2^-24] and the single [0x00800000] is [2^-126]:
    the first should narrow to the smallest half denormal [0x0001] and
    the second to the zero [0x0000]; both are narrowed to [0x7C00],
    positive infinity, and so is every positive normalized single below
    [2^-15], by [singles2halfp_elem_wraps]. *)
Theorem C4_small_singles_narrow_to_infinity :
  writes_at (singles2halfp little_endian_ieee process_start
               (Some [0; 0]) (Some [0x33800000; 0x00800000]) 2) 0 0x7C00 /\
  writes_at (singles2halfp little_endian_ieee process_start
               (Some [0; 0]) (Some [0x33800000; 0x00800000]) 2) 1 0x7C00.
Proof. split; eexists _, _; (split; [reflexivity|reflexivity]). Qed.

(** ** Round trips *)

(** C1.  Widening then narrowing at the smallest half denormal
    [0x0001], a finite half: [halfp2singles] writes [0x33800000] and
    [singles2halfp] narrows that to [0x7C00]; [halfp2doubles] writes the
    high word [0x3E700000] and [doubles2halfp] narrows that to [0x7C00]
    as well.  The round trip gives infinity, not [0x0001]. *)
Theorem C1_round_trip_of_smallest_denormal :
  single_round_trip little_endian_ieee 0x0001 = Some 0x7C00 /\
  double_round_trip little_endian_ieee 0x0001 = Some 0x7C00 /\
  half_exp 0x0001 <> 0x1F.
Proof. split; [reflexivity | split; [reflexivity | discriminate]]. Qed.

(** ** Widening and the sign *)

(** C3, as it fails: the half [0x7E00] is a NaN with a clear sign bit;
    it is not zero, and [halfp2singles] widens it to [0xFFC00000],
    [halfp2doubles] to the high word [0xFFF80000]: the sign bit of both
    is set. *)
Lemma C3_positive_nan_widens_to_negative :
  Z.land 0x7E00 0x7FFF <> 0 /\ half_sign 0x7E00 = false /\
  (exists x,
     writes_at (halfp2singles little_endian_ieee process_start
                  (Some [0]) (Some [0x7E00]) 1) 0 x /\
     single_sign x = true) /\
  (exists hi lo,
     written (halfp2doubles little_endian_ieee process_start
                (Some [0; 0]) (Some [0x7E00]) 1) = Some [lo; hi] /\
     double_sign (double_of_words hi lo) = true).
Proof.
  split; [discriminate|]. split; [reflexivity|]. split.
  - exists 0xFFC00000. split; [|reflexivity].
    eexists _, _. split; reflexivity.
  - exists 0xFFF80000, 0. split; reflexivity.
Qed.

(** C3, amended.  For every non-zero half [h] that is not a NaN, the
    single that [halfp2singles] writes for [h] and the double whose high
    word [halfp2doubles] writes for [h] have the sign bit of [h].  A NaN
    half of either sign is widened to the fixed single [0xFFC00000] and
    to the fixed high word [0xFFF80000]. *)
Theorem C3_widening_keeps_the_sign_unless_nan
    (p : platform) (pr : process) (tgt src : list Z) (numel : Z) (i : nat) (h : Z) :
  ieee_compliant p -> reachable p pr ->
  (i < Z.to_nat numel)%nat -> src !! i = Some h ->
  Z.land h 0x7FFF <> 0 ->
  (~ half_is_nan h ->
   (buffers_fit Halfp2singles numel src tgt ->
    exists x, writes_at (halfp2singles p pr (Some tgt) (Some src) numel) i x /\
              single_sign x = half_sign h) /\
   (buffers_fit Halfp2doubles numel src tgt ->
    exists hi, writes_at (halfp2doubles p pr (Some tgt) (Some src) numel)
                         (high_word p i) hi /\
               forall lo, is_u32 lo ->
                          double_sign (double_of_words hi lo) = half_sign h)) /\
  (half_is_nan h ->
   (buffers_fit Halfp2singles numel src tgt ->
    writes_at (halfp2singles p pr (Some tgt) (Some src) numel) i 0xFFC00000) /\
   (buffers_fit Halfp2doubles numel src tgt ->
    writes_at (halfp2doubles p pr (Some tgt) (Some src) numel)
              (high_word p i) 0xFFF80000)).
Proof.
  intros Hp Hr Hi Hh Hnz. split.
  - intros Hnan. split; intros Hfit.
    + destruct (halfp2singles_elem_sign h Hnan) as (x & Hx & Hs).
      exists x. split; [|exact Hs].
      now apply (call_writes p Halfp2singles pr tgt src numel i h).
    + destruct (halfp2doubles_elem_sign h Hnan) as (hi & Hx & Hs).
      exists hi. split.
      * now apply (call_writes p Halfp2doubles pr tgt src numel i h).
      * intros lo Hlo. now rewrite double_sign_of_words.
  - intros [He Hm].
    assert (Hmask : Z.land h 0x7C00 = 0x7C00) by now rewrite half_exp_mask, He.
    destruct (widen_nan h Hmask Hm) as [Hs Hd].
    split; intros Hfit.
    + now apply (call_writes p Halfp2singles pr tgt src numel i h).
    + now apply (call_writes p Halfp2doubles pr tgt src numel i h).
Qed.

Lemma C3_witness :
  (exists x,
     writes_at (halfp2singles little_endian_ieee process_start
                  (Some [0; 0]) (Some [0x3C00; 0x8001]) 2) 1 x /\
     single_sign x = half_sign 0x8001) /\
  (exists hi,
     writes_at (halfp2doubles little_endian_ieee process_start
                  (Some [0; 0; 0; 0]) (Some [0x3C00; 0x8001]) 2) 3 hi /\
     forall lo, is_u32 lo -> double_sign (double_of_words hi lo) = half_sign 0x8001) /\
  writes_at (halfp2singles big_endian_ieee process_start
               (Some [0]) (Some [0x7C01]) 1) 0 0xFFC00000 /\
  writes_at (halfp2doubles big_endian_ieee process_start
               (Some [0; 0]) (Some [0x7C01]) 1) 0 0xFFF80000.
Proof.
  assert (Hfin : ~ half_is_nan 0x8001) by (intros [He _]; discriminate He).
  assert (Hnan : half_is_nan 0x7C01) by (split; [reflexivity | discriminate]).
  split; [|split; [|split]].
  - destruct (C3_widening_keeps_the_sign_unless_nan little_endian_ieee process_start
                [0; 0] [0x3C00; 0x8001] 2 1 0x8001) as [Hkeep _];
      [reflexivity | constructor | simpl; lia | reflexivity | discriminate |].
    apply Hkeep; [exact Hfin | split; simpl; lia].
  - destruct (C3_widening_keeps_the_sign_unless_nan little_endian_ieee process_start
                [0; 0; 0; 0] [0x3C00; 0x8001] 2 1 0x8001) as [Hkeep _];
      [reflexivity | constructor | simpl; lia | reflexivity | discriminate |].
    apply Hkeep; [exact Hfin | split; simpl; lia].
  - destruct (C3_widening_keeps_the_sign_unless_nan big_endian_ieee process_start
                [0] [0x7C01] 1 0 0x7C01) as [_ Hfixed];
      [reflexivity | constructor | simpl; lia | reflexivity | discriminate |].
    apply Hfixed; [exact Hnan | split; simpl; lia].
  - destruct (C3_widening_keeps_the_sign_unless_nan big_endian_ieee process_start
                [0; 0] [0x7C01] 1 0 0x7C01) as [_ Hfixed];
      [reflexivity | constructor | simpl; lia | reflexivity | discriminate |].
    apply Hfixed; [exact Hnan | split; simpl; lia].
Defined.

(** ** Null buffers and the value returned *)

(** C7.  On a host that passes the check, each of the four routines
    called with a null source or a null target returns [TRUE] and leaves
    the target as it was, for every count. *)
Theorem C7_null_buffer_is_a_successful_no_op
    (p : platform) (pr : process) (target source : buffer) (numel : Z) :
  ieee_compliant p ->
  source = None \/ target = None ->
  (exists pr', singles2halfp p pr target source numel = Return TRUE pr' target) /\
  (exists pr', doubles2halfp p pr target source numel = Return TRUE pr' target) /\
  (exists pr', halfp2singles p pr target source numel = Return TRUE pr' target) /\
  (exists pr', halfp2doubles p pr target source numel = Return TRUE pr' target).
Proof.
  intros Hp Hnull.
  assert (Hall : forall r, exists pr',
             call p r pr target source numel = Return TRUE pr' target).
  { intros r. rewrite call_unfold.
    pose proof (ieee_check_compliant p r pr Hp) as Hopen.
    destruct (ieee_check p r pr) as [pr1 ok]. simpl in Hopen. subst ok.
    exists pr1. destruct Hnull as [-> | ->]; [reflexivity|].
    now destruct source. }
  repeat split.
  - apply (Hall Singles2halfp).
  - apply (Hall Doubles2halfp).
  - apply (Hall Halfp2singles).
  - apply (Hall Halfp2doubles).
Qed.

Lemma C7_witness :
  (exists pr', singles2halfp big_endian_ieee process_start
                 (Some [1; 2; 3]) None 3 = Return TRUE pr' (Some [1; 2; 3])) /\
  (exists pr', doubles2halfp big_endian_ieee process_start
                 (Some [1; 2; 3]) None 3 = Return TRUE pr' (Some [1; 2; 3])) /\
  (exists pr', halfp2singles big_endian_ieee process_start
                 (Some [1; 2; 3]) None 3 = Return TRUE pr' (Some [1; 2; 3])) /\
  (exists pr', halfp2doubles big_endian_ieee process_start
                 (Some [1; 2; 3]) None 3 = Return TRUE pr' (Some [1; 2; 3])).
Proof.
  apply (C7_null_buffer_is_a_successful_no_op big_endian_ieee process_start
           (Some [1; 2; 3]) None 3).
  - reflexivity.
  - left. reflexivity.
Defined.

(** C8.  From any state of the process that calls can produce, and with
    buffers that hold [numel] elements when both are given, a call of
    any of the four routines returns; the value returned is [FALSE]
    exactly when the word of [1.0] that the check selects differs from
    [0x3FF00000], and [TRUE] exactly when it is equal, whatever branches
    the converted values take. *)
Theorem C8_false_only_when_the_check_fails
    (p : platform) (r : routine) (pr : process) (target source : buffer) (numel : Z) :
  reachable p pr ->
  (forall src tgt, source = Some src -> target = Some tgt ->
                   buffers_fit r numel src tgt) ->
  exists rv pr' target',
    call p r pr target source numel = Return rv pr' target' /\
    (rv = FALSE <-> probe_word p <> 0x3FF00000) /\
    (rv = TRUE <-> probe_word p = 0x3FF00000).
Proof.
  intros Hr Hfit. pose proof (reachable_consistent p pr Hr) as Hc.
  destruct (Z.eq_dec (probe_word p) 0x3FF00000) as [Hp|Hp].
  - (* a compliant host *)
    assert (Hres : exists pr' target',
               call p r pr target source numel = Return TRUE pr' target').
    { destruct source as [src|], target as [tgt|].
      1: { destruct (call_converts p r pr tgt src numel Hp Hc
                       (Hfit src tgt eq_refl eq_refl)) as (pr' & tgt' & Hcall & _).
           eauto. }
      (* a null buffer: nothing is converted *)
      all: rewrite call_unfold;
        pose proof (ieee_check_compliant p r pr Hp) as Hopen;
        destruct (ieee_check p r pr) as [pr1 ok]; simpl in Hopen; subst ok; eauto. }
    destruct Hres as (pr' & target' & Hcall).
    exists TRUE, pr', target'. split; [exact Hcall|].
    split; split; intros H; try congruence; discriminate H.
  - (* a host that fails the check *)
    rewrite call_unfold.
    destruct (ieee_check_case p r pr) as [H0|_ Hcomp|_ _].
    + destruct (Hc r H0) as [Hcomp _]. contradiction.
    + contradiction.
    + eexists FALSE, _, target. split; [reflexivity|].
      split; split; intros H; try congruence; discriminate H.
Qed.

Lemma C8_witness :
  exists rv pr' target',
    call little_endian_ieee Doubles2halfp process_start
         (Some [0; 0]) (Some [0; 0x7FF80000; 0; 0x7FF00000]) 2
    = Return rv pr' target' /\
    (rv = FALSE <-> probe_word little_endian_ieee <> 0x3FF00000) /\
    (rv = TRUE <-> probe_word little_endian_ieee = 0x3FF00000).
Proof.
  apply (C8_false_only_when_the_check_fails little_endian_ieee Doubles2halfp
           process_start (Some [0; 0]) (Some [0; 0x7FF80000; 0; 0x7FF00000]) 2).
  - constructor.
  - intros src tgt [= <-] [= <-]. split; simpl; lia.
Defined.

(** ** The cached check *)

Lemma probes_of_entered (r r' : routine) (s : statics) (pr : process) :
  probes_of r (set_statics r' s (record_probe r' pr)) =
  if decide (r' = r) then S (probes_of r pr) else probes_of r pr.
Proof.
  unfold probes_of. rewrite probe_log_set. simpl probe_log.
  case_decide as Heq.
  - now apply count_occ_cons_eq.
  - now apply count_occ_cons_neq.
Qed.

Lemma entered_once_start (p : platform) : entered_once p process_start.
Proof. intros r _. unfold probes_of. simpl. split; [reflexivity | lia]. Qed.

Lemma entered_once_check (p : platform) (r : routine) (pr : process) :
  ieee_compliant p -> entered_once p pr -> entered_once p (fst (ieee_check p r pr)).
Proof.
  intros Hp Hinv.
  destruct (ieee_check_case p r pr) as [H0|Hset _|_ Hn]; simpl;
    [exact Hinv | | contradiction].
  intros r' Hr'. rewrite probes_of_entered.
  destruct (Hinv r' Hr') as [Hzero Hle].
  case_decide as Heq.
  - subst r'. rewrite statics_of_set_eq. simpl.
    rewrite (Hzero Hset). split; [congruence | lia].
  - rewrite statics_of_set_ne, statics_of_record by congruence.
    now split.
Qed.

Lemma entered_once_run (p : platform) (calls : list invocation) :
  ieee_compliant p ->
  forall pr pr', entered_once p pr -> run p pr calls = Some pr' -> entered_once p pr'.
Proof.
  intros Hp. induction calls as [|c calls IH]; intros pr pr' Hinv Hrun.
  - now injection Hrun as <-.
  - simpl in Hrun.
    destruct (call p (inv_routine c) pr (inv_target c) (inv_source c) (inv_numel c))
      as [rv pr1 t1|] eqn:Hcall; [|discriminate].
    apply call_returns in Hcall as [-> _].
    eapply IH; [|exact Hrun]. now apply entered_once_check.
Qed.

Lemma fresh_flags_start : fresh_flags process_start.
Proof. intros r _. destruct r; simpl; discriminate. Qed.

Lemma fresh_flags_check (p : platform) (r : routine) (pr : process) :
  fresh_flags pr -> fresh_flags (fst (ieee_check p r pr)).
Proof.
  intros Hinv.
  destruct (ieee_check_case p r pr) as [H0|Hset _|Hset _]; simpl;
    [exact Hinv | |];
    intros r'; rewrite probes_of_entered; case_decide as Heq;
    try discriminate;
    rewrite statics_of_set_ne, statics_of_record by congruence; apply Hinv.
Qed.

Lemma fresh_flags_run (p : platform) (calls : list invocation) :
  forall pr pr', fresh_flags pr -> run p pr calls = Some pr' -> fresh_flags pr'.
Proof.
  induction calls as [|c calls IH]; intros pr pr' Hinv Hrun.
  - now injection Hrun as <-.
  - simpl in Hrun.
    destruct (call p (inv_routine c) pr (inv_target c) (inv_source c) (inv_numel c))
      as [rv pr1 t1|] eqn:Hcall; [|discriminate].
    apply call_returns in Hcall as [-> _].
    eapply IH; [|exact Hrun]. now apply fresh_flags_check.
Qed.

(** A call of a routine whose flag is set enters the check block. *)
Lemma call_enters (p : platform) (r : routine) (pr pr' : process)
    (target target' source : buffer) (numel rv : Z) :
  checkieee (statics_of r pr) <> 0 ->
  call p r pr target source numel = Return rv pr' target' ->
  probes_of r pr' = S (probes_of r pr).
Proof.
  intros Hset Hcall. apply call_returns in Hcall as [-> _].
  destruct (ieee_check_case p r pr) as [H0|_ _|_ _]; simpl;
    [contradiction | |];
    rewrite probes_of_entered; case_decide; congruence.
Qed.

(** [singles2halfp] too, when [FLASE] stands for zero. *)
Lemma singles2halfp_checks_at_most_once
    (p : platform) (calls : list invocation) (pr : process) :
  ieee_compliant p -> FLASE p = 0 ->
  run p process_start calls = Some pr ->
  (probes_of Singles2halfp pr <= 1)%nat.
Proof.
  intros Hp Hflase Hrun.
  apply (entered_once_run p calls Hp process_start pr (entered_once_start p) Hrun
           Singles2halfp Hflase).
Qed.

(** C9, as it fails: on a little-endian IEEE host, and with [FLASE]
    taken as zero, a first call of [singles2halfp] enters the check
    block and passes; the call of [doubles2halfp] that follows enters
    its own check block again. *)
Lemma C9_second_routine_checks_again :
  exists pr1 pr2,
    singles2halfp little_endian_ieee process_start
                  (Some [0]) (Some [0x3F800000]) 1 = Return TRUE pr1 (Some [0x3C00]) /\
    probe_log pr1 = [Singles2halfp] /\
    doubles2halfp little_endian_ieee pr1
                  (Some [0]) (Some [0; 0x3FF00000]) 1 = Return TRUE pr2 (Some [0x3C00]) /\
    probe_log pr2 = [Doubles2halfp; Singles2halfp].
Proof. eexists _, _. repeat (split; [reflexivity|]). reflexivity. Qed.

(** C9, amended.  The check is cached by each routine for itself.  On
    a host that passes it, in any sequence of calls made from the start
    of the process, each of [doubles2halfp], [halfp2singles] and
    [halfp2doubles] enters its check block at most once, whatever the
    other calls are; and the first call of a routine enters the check
    block of that routine, whatever routines have passed the check
    before. *)
Theorem C9_each_routine_checks_at_most_once
    (p : platform) (calls : list invocation) (pr : process) (r : routine) :
  ieee_compliant p ->
  run p process_start calls = Some pr ->
  (r <> Singles2halfp -> (probes_of r pr <= 1)%nat) /\
  (probes_of r pr = 0%nat ->
   forall target source numel rv pr' target',
     call p r pr target source numel = Return rv pr' target' ->
     probes_of r pr' = 1%nat).
Proof.
  intros Hp Hrun. split.
  - intros Hr.
    apply (entered_once_run p calls Hp process_start pr (entered_once_start p) Hrun r).
    destruct r; [contradiction | reflexivity..].
  - intros Hnone target source numel rv pr' target' Hcall.
    pose proof (fresh_flags_run p calls process_start pr fresh_flags_start Hrun r Hnone)
      as Hset.
    rewrite (call_enters p r pr pr' target target' source numel rv Hset Hcall).
    now rewrite Hnone.
Qed.

Lemma C9_witness :
  (probes_of Halfp2doubles example_state <= 1)%nat /\
  probes_of Halfp2singles
    {| st_singles2halfp := {| checkieee := TRUE; next := 0 |};
       st_doubles2halfp := {| checkieee := FALSE; next := 1 |};
       st_halfp2singles := {| checkieee := FALSE; next := 1 |};
       st_halfp2doubles := {| checkieee := FALSE; next := 1 |};
       probe_log := [Halfp2singles; Doubles2halfp; Halfp2doubles] |} = 1%nat.
Proof.
  split.
  - destruct (C9_each_routine_checks_at_most_once little_endian_ieee
                example_calls example_state Halfp2doubles) as [Honce _];
      [reflexivity | reflexivity |].
    apply Honce. discriminate.
  - destruct (C9_each_routine_checks_at_most_once little_endian_ieee
                example_calls example_state Halfp2singles) as [_ Hfirst];
      [reflexivity | reflexivity |].
    apply (Hfirst eq_refl (Some [0]) (Some [0x3C00]) 1 TRUE _ (Some [0x3F800000])).
    reflexivity.
Defined.

(** ** The 64-bit routines and the low-order word *)

Lemma low_word_not_high (p : platform) (i j : nat) : low_word p i <> high_word p j.
Proof.
  unfold low_word, high_word.
  destruct (probe_next_cases p) as [-> | ->]; simpl Z.to_nat; lia.
Qed.

(** Two source buffers that agree on the words the turns read give the
    same call. *)
Lemma call_source (p : platform) (r : routine) (pr : process)
    (tgt src1 src2 : list Z) (numel : Z) :
  consistent p pr ->
  (forall i, (i < Z.to_nat numel)%nat -> src2 !! src_at p r i = src1 !! src_at p r i) ->
  call p r pr (Some tgt) (Some src2) numel = call p r pr (Some tgt) (Some src1) numel.
Proof.
  intros Hc Hsame. rewrite !call_unfold.
  destruct (ieee_check p r pr) as [pr1 [|]] eqn:Hchk; [|reflexivity].
  destruct (ieee_check_open p r pr pr1 Hc Hchk) as [_ Hnext].
  f_equal. apply convert_loop_source. intros i Hi.
  destruct (turn_indices p r pr1 i Hnext) as [-> _]. now apply Hsame.
Qed.

(** C10.  On a host that passes the check: [doubles2halfp] reads of each
    double only its high-order word, so the halves it writes are the
    same for two sources with the same high-order words, whatever their
    low-order words are, and half [i] is the conversion of high-order
    word [i]; [halfp2doubles] writes of each double only its high-order
    word, so every low-order word of the target, and every other word
    that is not one of the [numel] high-order words, keeps its value. *)
Theorem C10_only_the_high_word_is_touched
    (p : platform) (pr : process) (numel : Z) :
  ieee_compliant p -> reachable p pr ->
  (forall tgt src1 src2,
     buffers_fit Doubles2halfp numel src1 tgt ->
     (forall i, (i < Z.to_nat numel)%nat ->
                src2 !! high_word p i = src1 !! high_word p i) ->
     exists pr' tgt',
       doubles2halfp p pr (Some tgt) (Some src1) numel = Return TRUE pr' (Some tgt') /\
       doubles2halfp p pr (Some tgt) (Some src2) numel = Return TRUE pr' (Some tgt') /\
       forall i, (i < Z.to_nat numel)%nat ->
         exists hi, src1 !! high_word p i = Some hi /\
                    tgt' !! i = Some (doubles2halfp_elem hi)) /\
  (forall tgt src,
     buffers_fit Halfp2doubles numel src tgt ->
     exists pr' tgt',
       halfp2doubles p pr (Some tgt) (Some src) numel = Return TRUE pr' (Some tgt') /\
       length tgt' = length tgt /\
       (forall i, tgt' !! low_word p i = tgt !! low_word p i) /\
       (forall j, (forall i, (i < Z.to_nat numel)%nat -> j <> high_word p i) ->
                  tgt' !! j = tgt !! j)).
Proof.
  intros Hp Hr. pose proof (reachable_consistent p pr Hr) as Hc. split.
  - intros tgt src1 src2 Hfit Hsame.
    destruct (call_converts p Doubles2halfp pr tgt src1 numel Hp Hc Hfit)
      as (pr' & tgt' & Hcall & _ & _ & Hwr & _).
    exists pr', tgt'. split; [exact Hcall|]. split.
    + change (call p Doubles2halfp pr (Some tgt) (Some src2) numel
              = Return TRUE pr' (Some tgt')).
      rewrite (call_source p Doubles2halfp pr tgt src1 src2 numel Hc Hsame).
      exact Hcall.
    + intros i Hi. destruct (Hwr i Hi) as (x & y & Hx & [= <-] & Ht).
      exists x. split; [exact Hx | exact Ht].
  - intros tgt src Hfit.
    destruct (call_converts p Halfp2doubles pr tgt src numel Hp Hc Hfit)
      as (pr' & tgt' & Hcall & _ & Hlen & _ & Hframe).
    exists pr', tgt'. split; [exact Hcall|]. split; [exact Hlen|]. split.
    + intros i. apply Hframe. intros k _. apply low_word_not_high.
    + exact Hframe.
Qed.

Lemma C10_witness :
  (exists pr' tgt',
     doubles2halfp little_endian_ieee process_start
       (Some [0; 0]) (Some [0x11111111; 0x3FF00000; 0x22222222; 0xC0000000]) 2
     = Return TRUE pr' (Some tgt') /\
     doubles2halfp little_endian_ieee process_start
       (Some [0; 0]) (Some [0x33333333; 0x3FF00000; 0x44444444; 0xC0000000]) 2
     = Return TRUE pr' (Some tgt') /\
     forall i, (i < Z.to_nat 2)%nat ->
       exists hi,
         [0x11111111; 0x3FF00000; 0x22222222; 0xC0000000]
           !! high_word little_endian_ieee i = Some hi /\
         tgt' !! i = Some (doubles2halfp_elem hi)) /\
  (exists pr' tgt',
     halfp2doubles little_endian_ieee process_start
       (Some [0x55555555; 0; 0x66666666; 0]) (Some [0x3C00; 0xC000]) 2
     = Return TRUE pr' (Some tgt') /\
     length tgt' = length [0x55555555; 0; 0x66666666; 0] /\
     (forall i, tgt' !! low_word little_endian_ieee i
                = [0x55555555; 0; 0x66666666; 0] !! low_word little_endian_ieee i) /\
     (forall j, (forall i, (i < Z.to_nat 2)%nat -> j <> high_word little_endian_ieee i) ->
                tgt' !! j = [0x55555555; 0; 0x66666666; 0] !! j)).
Proof.
  destruct (C10_only_the_high_word_is_touched little_endian_ieee process_start 2)
    as [Hread Hwrite]; [reflexivity | constructor |].
  split.
  - apply Hread.
    + split; simpl; lia.
    + intros i Hi. unfold high_word. simpl Z.to_nat in *.
      destruct i as [|[|i]]; [reflexivity | reflexivity | lia].
  - apply Hwrite. split; simpl; lia.
Defined.

(** * Further properties of the routines *)

(** ** Narrowing singles, branch by branch *)

(** X1.  A single whose exponent field lies between 113 and 142 (a
    magnitude inside the normalized half range) is narrowed by
    [singles2halfp] to its sign bit plus its 31-bit magnitude re-biased
    by [112 << 23], rounded up at bit 12 and cut by 13 bits: round to
    nearest with ties away from zero; the carry of the rounding runs
    into the exponent field and, from the largest exponent, gives
    infinity. *)
Theorem X1_single_in_range_is_rounded
    (p : platform) (pr : process) (tgt src : list Z) (numel : Z) (i : nat) (x : Z) :
  ieee_compliant p -> reachable p pr ->
  buffers_fit Singles2halfp numel src tgt ->
  (i < Z.to_nat numel)%nat -> src !! i = Some x ->
  113 <= single_exp x <= 142 ->
  writes_at (singles2halfp p pr (Some tgt) (Some src) numel) i
            (sign16 (single_sign x)
             + Z.shiftr (Z.land x 0x7FFFFFFF - 0x38000000 + 0x1000) 13).
Proof.
  intros Hp Hr Hfit Hi Hx He.
  apply (call_writes p Singles2halfp pr tgt src numel i x); try assumption.
  simpl. f_equal. now apply singles2halfp_elem_rounds.
Qed.

Lemma X1_witness :
  writes_at (singles2halfp little_endian_ieee process_start
               (Some [0; 0; 0]) (Some [0x3F801000; 0xC0000FFF; 0x477FF000]) 3)
            2 0x7C00.
Proof.
  apply (X1_single_in_range_is_rounded little_endian_ieee process_start
           [0; 0; 0] [0x3F801000; 0xC0000FFF; 0x477FF000] 3 2 0x477FF000).
  - reflexivity.
  - constructor.
  - split; simpl; lia.
  - simpl; lia.
  - reflexivity.
  - vm_compute. split; discriminate.
Defined.

(** X2.  A single whose exponent field is 112 (a magnitude from [2^-15]
    up to [2^-14]) is narrowed by [singles2halfp] to a half denormal:
    its sign bit plus its mantissa with the hidden bit, rounded up at
    bit 13 and cut by 14 bits; the largest mantissas round up to the
    smallest normalized half [0x0400]. *)
Theorem X2_single_exponent_112_is_a_denormal
    (p : platform) (pr : process) (tgt src : list Z) (numel : Z) (i : nat) (x : Z) :
  ieee_compliant p -> reachable p pr ->
  buffers_fit Singles2halfp numel src tgt ->
  (i < Z.to_nat numel)%nat -> src !! i = Some x ->
  single_exp x = 112 ->
  writes_at (singles2halfp p pr (Some tgt) (Some src) numel) i
            (sign16 (single_sign x)
             + Z.shiftr (Z.land x 0x007FFFFF + 0x00800000 + 0x2000) 14).
Proof.
  intros Hp Hr Hfit Hi Hx He.
  apply (call_writes p Singles2halfp pr tgt src numel i x); try assumption.
  simpl. f_equal. now apply singles2halfp_elem_gradual.
Qed.

Lemma X2_witness :
  writes_at (singles2halfp big_endian_ieee process_start
               (Some [0; 0]) (Some [0x38000000; 0xB87FE000]) 2) 1 0x8400.
Proof.
  apply (X2_single_exponent_112_is_a_denormal big_endian_ieee process_start
           [0; 0] [0x38000000; 0xB87FE000] 2 1 0xB87FE000).
  - reflexivity.
  - constructor.
  - split; simpl; lia.
  - simpl; lia.
  - reflexivity.
  - reflexivity.
Defined.

(** X3.  A normalized single whose exponent field is below 112 (a
    magnitude below [2^-15]) is narrowed by [singles2halfp] to the
    infinity of its sign: [hes] is unsigned, so the negative re-biased
    exponent is at least [0x1F]. *)
Theorem X3_single_below_range_becomes_infinity
    (p : platform) (pr : process) (tgt src : list Z) (numel : Z) (i : nat) (x : Z) :
  ieee_compliant p -> reachable p pr ->
  buffers_fit Singles2halfp numel src tgt ->
  (i < Z.to_nat numel)%nat -> src !! i = Some x ->
  1 <= single_exp x <= 111 ->
  writes_at (singles2halfp p pr (Some tgt) (Some src) numel) i
            (sign16 (single_sign x) + 0x7C00).
Proof.
  intros Hp Hr Hfit Hi Hx He.
  apply (call_writes p Singles2halfp pr tgt src numel i x); try assumption.
  simpl. f_equal. rewrite singles2halfp_elem_wraps by lia.
  apply signed_infinity_sum.
Qed.

Lemma X3_witness :
  writes_at (singles2halfp little_endian_ieee process_start
               (Some [0]) (Some [0xB7000000]) 1) 0 0xFC00.
Proof.
  apply (X3_single_below_range_becomes_infinity little_endian_ieee process_start
           [0] [0xB7000000] 1 0 0xB7000000).
  - reflexivity.
  - constructor.
  - split; simpl; lia.
  - simpl; lia.
  - reflexivity.
  - vm_compute. split; discriminate.
Defined.

(** X4.  A single zero or denormal (exponent field zero) is narrowed by
    [singles2halfp] to the half zero of its sign. *)
Theorem X4_single_denormal_becomes_zero
    (p : platform) (pr : process) (tgt src : list Z) (numel : Z) (i : nat) (x : Z) :
  ieee_compliant p -> reachable p pr ->
  buffers_fit Singles2halfp numel src tgt ->
  (i < Z.to_nat numel)%nat -> src !! i = Some x ->
  is_u32 x -> single_exp x = 0 ->
  writes_at (singles2halfp p pr (Some tgt) (Some src) numel) i
            (sign16 (single_sign x)).
Proof.
  intros Hp Hr Hfit Hi Hx Hu He.
  apply (call_writes p Singles2halfp pr tgt src numel i x); try assumption.
  simpl. f_equal. rewrite singles2halfp_elem_denormal by assumption.
  unfold sign16. destruct (single_sign x); reflexivity.
Qed.

Lemma X4_witness :
  writes_at (singles2halfp little_endian_ieee process_start
               (Some [0]) (Some [0x807FFFFF]) 1) 0 0x8000.
Proof.
  apply (X4_single_denormal_becomes_zero little_endian_ieee process_start
           [0] [0x807FFFFF] 1 0 0x807FFFFF).
  - reflexivity.
  - constructor.
  - split; simpl; lia.
  - simpl; lia.
  - reflexivity.
  - unfold is_u32. lia.
  - reflexivity.
Defined.



(** ** Narrowing doubles, branch by branch *)

(** X6.  For a double whose exponent field is all ones, [doubles2halfp]
    looks at the 20 mantissa bits of the high-order word only: when one
    of them is set it writes the half NaN [0xFE00], and when none is it
    writes the infinity of the sign, also for a NaN whose payload lies
    in the low-order word. *)
Theorem X6_double_nan_is_decided_by_the_high_word
    (p : platform) (pr : process) (tgt src : list Z) (numel : Z) (i : nat) (x : Z) :
  ieee_compliant p -> reachable p pr ->
  buffers_fit Doubles2halfp numel src tgt ->
  (i < Z.to_nat numel)%nat -> src !! high_word p i = Some x ->
  high_exp x = 0x7FF ->
  writes_at (doubles2halfp p pr (Some tgt) (Some src) numel) i
            (if high_man x =? 0 then sign16 (high_sign x) + 0x7C00 else 0xFE00).
Proof.
  intros Hp Hr Hfit Hi Hx He.
  apply (call_writes p Doubles2halfp pr tgt src numel i x); try assumption.
  simpl. f_equal. now apply doubles2halfp_elem_special.
Qed.

Lemma X6_witness :
  writes_at (doubles2halfp little_endian_ieee process_start
               (Some [0; 0]) (Some [0x00000001; 0x7FF00000; 0; 0xFFF80000]) 2)
            0 0x7C00.
Proof.
  apply (X6_double_nan_is_decided_by_the_high_word little_endian_ieee process_start
           [0; 0] [0x00000001; 0x7FF00000; 0; 0xFFF80000] 2 0 0x7FF00000).
  - reflexivity.
  - constructor.
  - split; simpl; lia.
  - simpl; lia.
  - reflexivity.
  - reflexivity.
Defined.

(** X7.  A normalized double whose exponent field is outside 1008 to
    1038 is narrowed by [doubles2halfp] to the infinity of its sign:
    above the half range, and below it as well, where the re-biased
    exponent is negative and [hes] is unsigned. *)
Theorem X7_double_out_of_range_becomes_infinity
    (p : platform) (pr : process) (tgt src : list Z) (numel : Z) (i : nat) (x : Z) :
  ieee_compliant p -> reachable p pr ->
  buffers_fit Doubles2halfp numel src tgt ->
  (i < Z.to_nat numel)%nat -> src !! high_word p i = Some x ->
  high_exp x <> 0 -> high_exp x <> 0x7FF ->
  high_exp x < 1008 \/ 1039 <= high_exp x ->
  writes_at (doubles2halfp p pr (Some tgt) (Some src) numel) i
            (sign16 (high_sign x) + 0x7C00).
Proof.
  intros Hp Hr Hfit Hi Hx Hz Hf Hout.
  apply (call_writes p Doubles2halfp pr tgt src numel i x); try assumption.
  simpl. f_equal. now apply doubles2halfp_elem_out_of_range.
Qed.

Lemma X7_witness :
  writes_at (doubles2halfp big_endian_ieee process_start
               (Some [0; 0]) (Some [0x40F00000; 0; 0xBE700000; 0]) 2) 1 0xFC00.
Proof.
  apply (X7_double_out_of_range_becomes_infinity big_endian_ieee process_start
           [0; 0] [0x40F00000; 0; 0xBE700000; 0] 2 1 0xBE700000).
  - reflexivity.
  - constructor.
  - split; simpl; lia.
  - simpl; lia.
  - reflexivity.
  - discriminate.
  - discriminate.
  - left. vm_compute. reflexivity.
Defined.

(** X8.  A double whose exponent field lies between 1009 and 1038 is
    narrowed by [doubles2halfp] to its sign bit plus the 31-bit
    magnitude of its high-order word re-biased by [1008 << 20], rounded
    up at bit 9 and cut by 10 bits; the low-order word takes no part in
    the rounding. *)
Theorem X8_double_in_range_is_rounded
    (p : platform) (pr : process) (tgt src : list Z) (numel : Z) (i : nat) (x : Z) :
  ieee_compliant p -> reachable p pr ->
  buffers_fit Doubles2halfp numel src tgt ->
  (i < Z.to_nat numel)%nat -> src !! high_word p i = Some x ->
  1009 <= high_exp x <= 1038 ->
  writes_at (doubles2halfp p pr (Some tgt) (Some src) numel) i
            (sign16 (high_sign x)
             + Z.shiftr (Z.land x 0x7FFFFFFF - 0x3F000000 + 0x200) 10).
Proof.
  intros Hp Hr Hfit Hi Hx He.
  apply (call_writes p Doubles2halfp pr tgt src numel i x); try assumption.
  simpl. f_equal. now apply doubles2halfp_elem_rounds.
Qed.

Lemma X8_witness :
  writes_at (doubles2halfp little_endian_ieee process_start
               (Some [0]) (Some [0xFFFFFFFF; 0x3FF001FF]) 1) 0 0x3C00.
Proof.
  apply (X8_double_in_range_is_rounded little_endian_ieee process_start
           [0] [0xFFFFFFFF; 0x3FF001FF] 1 0 0x3FF001FF).
  - reflexivity.
  - constructor.
  - split; simpl; lia.
  - simpl; lia.
  - reflexivity.
  - vm_compute. split; discriminate.
Defined.

(** X9.  A double whose exponent field is 1008 is narrowed by
    [doubles2halfp] to a half denormal: its sign bit plus the mantissa
    of the high-order word with the hidden bit, rounded up at bit 10 and
    cut by 11 bits. *)
Theorem X9_double_exponent_1008_is_a_denormal
    (p : platform) (pr : process) (tgt src : list Z) (numel : Z) (i : nat) (x : Z) :
  ieee_compliant p -> reachable p pr ->
  buffers_fit Doubles2halfp numel src tgt ->
  (i < Z.to_nat numel)%nat -> src !! high_word p i = Some x ->
  high_exp x = 1008 ->
  writes_at (doubles2halfp p pr (Some tgt) (Some src) numel) i
            (sign16 (high_sign x)
             + Z.shiftr (Z.land x 0x000FFFFF + 0x00100000 + 0x400) 11).
Proof.
  intros Hp Hr Hfit Hi Hx He.
  apply (call_writes p Doubles2halfp pr tgt src numel i x); try assumption.
  simpl. f_equal. now apply doubles2halfp_elem_gradual.
Qed.

Lemma X9_witness :
  writes_at (doubles2halfp little_endian_ieee process_start
               (Some [0]) (Some [0; 0x3F080000]) 1) 0 0x0300.
Proof.
  apply (X9_double_exponent_1008_is_a_denormal little_endian_ieee process_start
           [0] [0; 0x3F080000] 1 0 0x3F080000).
  - reflexivity.
  - constructor.
  - split; simpl; lia.
  - simpl; lia.
  - reflexivity.
  - reflexivity.
Defined.

(** X10.  A double zero or denormal (exponent field zero) is narrowed by
    [doubles2halfp] to the half zero of its sign. *)
Theorem X10_double_denormal_becomes_zero
    (p : platform) (pr : process) (tgt src : list Z) (numel : Z) (i : nat) (x : Z) :
  ieee_compliant p -> reachable p pr ->
  buffers_fit Doubles2halfp numel src tgt ->
  (i < Z.to_nat numel)%nat -> src !! high_word p i = Some x ->
  is_u32 x -> high_exp x = 0 ->
  writes_at (doubles2halfp p pr (Some tgt) (Some src) numel) i
            (sign16 (high_sign x)).
Proof.
  intros Hp Hr Hfit Hi Hx Hu He.
  apply (call_writes p Doubles2halfp pr tgt src numel i x); try assumption.
  simpl. f_equal. now apply doubles2halfp_elem_denormal.
Qed.

Lemma X10_witness :
  writes_at (doubles2halfp big_endian_ieee process_start
               (Some [7]) (Some [0x800FFFFF; 0xFFFFFFFF]) 1) 0 0x8000.
Proof.
  apply (X10_double_denormal_becomes_zero big_endian_ieee process_start
           [7] [0x800FFFFF; 0xFFFFFFFF] 1 0 0x800FFFFF).
  - reflexivity.
  - constructor.
  - split; simpl; lia.
  - simpl; lia.
  - reflexivity.
  - unfold is_u32. lia.
  - reflexivity.
Defined.

(** ** Widening keeps the value *)

(** X11.  [halfp2singles] widens a finite half to a single of the same
    sign and the same magnitude (the magnitude of the single in units of
    [2^-149] is that of the half in units of [2^-24], times [2^125]);
    a finite half that is not zero, denormals included, becomes a
    normalized single with an exponent field from 103 to 142. *)
Theorem X11_widening_to_single_is_exact
    (p : platform) (pr : process) (tgt src : list Z) (numel : Z) (i : nat) (h : Z) :
  ieee_compliant p -> reachable p pr ->
  buffers_fit Halfp2singles numel src tgt ->
  (i < Z.to_nat numel)%nat -> src !! i = Some h ->
  is_u16 h -> half_exp h <> 0x1F ->
  exists x,
    writes_at (halfp2singles p pr (Some tgt) (Some src) numel) i x /\
    single_sign x = half_sign h /\
    single_magnitude x = half_magnitude h * 2 ^ 125 /\
    (Z.land h 0x7FFF <> 0 -> 103 <= single_exp x <= 142).
Proof.
  intros Hp Hr Hfit Hi Hh Hu Hf.
  destruct (finite_widens_exactly h Hu Hf)
    as (x & d & Hx & _ & Hs & Hm & _ & _ & Hn).
  exists x. split.
  { now apply (call_writes p Halfp2singles pr tgt src numel i h). }
  split; [exact Hs|]. split; [exact Hm|].
  intros Hnz. now apply Hn.
Qed.

Lemma X11_witness :
  exists x,
    writes_at (halfp2singles little_endian_ieee process_start
                 (Some [0; 0]) (Some [0x3C00; 0x8003]) 2) 1 x /\
    single_sign x = half_sign 0x8003 /\
    single_magnitude x = half_magnitude 0x8003 * 2 ^ 125 /\
    103 <= single_exp x <= 142.
Proof.
  destruct (X11_widening_to_single_is_exact little_endian_ieee process_start
              [0; 0] [0x3C00; 0x8003] 2 1 0x8003) as (x & Hw & Hs & Hm & Hn).
  - reflexivity.
  - constructor.
  - split; simpl; lia.
  - simpl; lia.
  - reflexivity.
  - unfold is_u16. lia.
  - discriminate.
  - exists x. split; [exact Hw|]. split; [exact Hs|]. split; [exact Hm|].
    apply Hn. discriminate.
Defined.

(** X12.  [halfp2doubles] writes the high-order word only, so the double
    it leaves has the value of the half when the low-order word of the
    target was zero before the call: same sign, same magnitude (in units
    of [2^-1074], that of the half times [2^1050]), and an exponent
    field from 999 to 1038 for a finite half that is not zero. *)
Theorem X12_widening_to_double_is_exact_over_a_zero_low_word
    (p : platform) (pr : process) (tgt src : list Z) (numel : Z) (i : nat) (h : Z) :
  ieee_compliant p -> reachable p pr ->
  buffers_fit Halfp2doubles numel src tgt ->
  (i < Z.to_nat numel)%nat -> src !! i = Some h ->
  tgt !! low_word p i = Some 0 ->
  is_u16 h -> half_exp h <> 0x1F ->
  exists pr' tgt' hi,
    halfp2doubles p pr (Some tgt) (Some src) numel = Return TRUE pr' (Some tgt') /\
    tgt' !! high_word p i = Some hi /\
    tgt' !! low_word p i = Some 0 /\
    double_sign (double_of_words hi 0) = half_sign h /\
    double_magnitude (double_of_words hi 0) = half_magnitude h * 2 ^ 1050 /\
    (Z.land h 0x7FFF <> 0 -> 999 <= double_exp (double_of_words hi 0) <= 1038).
Proof.
  intros Hp Hr Hfit Hi Hh Hlow Hu Hf.
  destruct (finite_widens_exactly h Hu Hf)
    as (x & d & _ & Hd & _ & _ & Hs & Hm & Hn).
  destruct (call_converts p Halfp2doubles pr tgt src numel Hp
              (reachable_consistent p pr Hr) Hfit)
    as (pr' & tgt' & Hcall & _ & _ & Hwr & Hframe).
  exists pr', tgt', d. split; [exact Hcall|].
  destruct (Hwr i Hi) as (h' & y & Hh' & Hy & Ht).
  simpl in Hh', Hy, Ht. rewrite Hh in Hh'. injection Hh' as <-.
  rewrite Hd in Hy. injection Hy as <-.
  split; [exact Ht|]. split.
  { rewrite <- Hlow. apply Hframe. intros k _. apply low_word_not_high. }
  split; [exact Hs|]. split; [exact Hm|].
  intros Hnz. now apply Hn.
Qed.

Lemma X12_witness :
  exists pr' tgt' hi,
    halfp2doubles little_endian_ieee process_start
      (Some [0; 0x11111111]) (Some [0x0001]) 1 = Return TRUE pr' (Some tgt') /\
    tgt' !! high_word little_endian_ieee 0 = Some hi /\
    tgt' !! low_word little_endian_ieee 0 = Some 0 /\
    double_sign (double_of_words hi 0) = half_sign 0x0001 /\
    double_magnitude (double_of_words hi 0) = half_magnitude 0x0001 * 2 ^ 1050 /\
    999 <= double_exp (double_of_words hi 0) <= 1038.
Proof.
  destruct (X12_widening_to_double_is_exact_over_a_zero_low_word
              little_endian_ieee process_start [0; 0x11111111] [0x0001] 1 0 0x0001)
    as (pr' & tgt' & hi & Hcall & Hhi & Hlo & Hs & Hm & Hn).
  - reflexivity.
  - constructor.
  - split; simpl; lia.
  - simpl; lia.
  - reflexivity.
  - reflexivity.
  - unfold is_u16. lia.
  - discriminate.
  - exists pr', tgt', hi. repeat (split; [assumption|]). apply Hn. discriminate.
Defined.

(** X13.  A half infinity (exponent field all ones, mantissa zero) is
    widened to the infinity of the same sign: the single [0x7F800000]
    and the double high-order word [0x7FF00000], with the sign bit of
    the half on top. *)
Theorem X13_infinity_widens_to_infinity
    (p : platform) (pr : process) (tgt src : list Z) (numel : Z) (i : nat) (h : Z) :
  ieee_compliant p -> reachable p pr ->
  (i < Z.to_nat numel)%nat -> src !! i = Some h ->
  half_exp h = 0x1F -> half_man h = 0 ->
  (buffers_fit Halfp2singles numel src tgt ->
   writes_at (halfp2singles p pr (Some tgt) (Some src) numel) i
             (sign32 (half_sign h) + 0x7F800000)) /\
  (buffers_fit Halfp2doubles numel src tgt ->
   writes_at (halfp2doubles p pr (Some tgt) (Some src) numel) (high_word p i)
             (sign32 (half_sign h) + 0x7FF00000)).
Proof.
  intros Hp Hr Hi Hh He Hm.
  assert (Hmask : Z.land h 0x7C00 = 0x7C00) by now rewrite half_exp_mask, He.
  assert (Hnz : Z.land h 0x7FFF <> 0).
  { intros H0. apply (land_submask h _ 0x7C00) in H0; [congruence | reflexivity]. }
  assert (Hs : forall inf, 0 <= inf < 2147483648 ->
             Z.lor (u32 (Z.shiftl (Z.land h 0x8000) 16)) inf
             = sign32 (half_sign h) + inf).
  { intros inf Hinf. rewrite widen_sign_word. now apply lor_sign32. }
  split; intros Hfit.
  - apply (call_writes p Halfp2singles pr tgt src numel i h); try assumption.
    simpl. unfold halfp2singles_elem.
    destruct (Z.eqb_spec (Z.land h 0x7FFF) 0); [contradiction|].
    rewrite Hmask. change (0x7C00 =? 0) with false.
    change (0x7C00 =? 0x7C00) with true. cbv iota.
    unfold half_man in Hm. rewrite Hm. change (0 =? 0) with true. cbv iota.
    f_equal. apply Hs. lia.
  - apply (call_writes p Halfp2doubles pr tgt src numel i h); try assumption.
    simpl. unfold halfp2doubles_elem.
    destruct (Z.eqb_spec (Z.land h 0x7FFF) 0); [contradiction|].
    rewrite Hmask. change (0x7C00 =? 0) with false.
    change (0x7C00 =? 0x7C00) with true. cbv iota.
    unfold half_man in Hm. rewrite Hm. change (0 =? 0) with true. cbv iota.
    f_equal. apply Hs. lia.
Qed.

Lemma X13_witness :
  writes_at (halfp2singles big_endian_ieee process_start
               (Some [0]) (Some [0xFC00]) 1) 0 0xFF800000 /\
  writes_at (halfp2doubles big_endian_ieee process_start
               (Some [0; 0]) (Some [0xFC00]) 1) 0 0xFFF00000.
Proof.
  split.
  - apply (X13_infinity_widens_to_infinity big_endian_ieee process_start
             [0] [0xFC00] 1 0 0xFC00);
      [reflexivity | constructor | simpl; lia | reflexivity | reflexivity
      | reflexivity | split; simpl; lia].
  - apply (X13_infinity_widens_to_infinity big_endian_ieee process_start
             [0; 0] [0xFC00] 1 0 0xFC00);
      [reflexivity | constructor | simpl; lia | reflexivity | reflexivity
      | reflexivity | split; simpl; lia].
Defined.

(** ** Whole calls *)

(** X14.  A buffer of halves that are finite and not denormals below
    [2^-15], widened by [halfp2singles] and narrowed again by
    [singles2halfp], comes back element for element, whatever the two
    target buffers held before. *)
Theorem X14_round_trip_through_singles
    (p : platform) (pr : process) (src wide0 back0 : list Z) (numel : Z) :
  ieee_compliant p -> reachable p pr ->
  buffers_fit Halfp2singles numel src wide0 ->
  (Z.to_nat numel <= length back0)%nat ->
  (forall i h, (i < Z.to_nat numel)%nat -> src !! i = Some h -> comes_back h) ->
  exists pr1 wide pr2 back,
    halfp2singles p pr (Some wide0) (Some src) numel = Return TRUE pr1 (Some wide) /\
    singles2halfp p pr1 (Some back0) (Some wide) numel = Return TRUE pr2 (Some back) /\
    forall i, (i < Z.to_nat numel)%nat -> back !! i = src !! i.
Proof.
  intros Hp Hr Hfit Hback Hok.
  destruct (call_converts p Halfp2singles pr wide0 src numel Hp
              (reachable_consistent p pr Hr) Hfit)
    as (pr1 & wide & Hcall1 & _ & Hlen1 & Hwr1 & _).
  assert (Hr1 : reachable p pr1) by (eapply reachable_call; [exact Hr | exact Hcall1]).
  assert (Hfit2 : buffers_fit Singles2halfp numel wide back0).
  { destruct Hfit as [_ Hw]. split; simpl in *; lia. }
  destruct (call_converts p Singles2halfp pr1 back0 wide numel Hp
              (reachable_consistent p pr1 Hr1) Hfit2)
    as (pr2 & back & Hcall2 & _ & _ & Hwr2 & _).
  exists pr1, wide, pr2, back.
  split; [exact Hcall1|]. split; [exact Hcall2|].
  intros i Hi.
  destruct (Hwr1 i Hi) as (h & x & Hh & Hx & Hw). simpl in Hh, Hx, Hw.
  destruct (Hwr2 i Hi) as (x' & y & Hx' & Hy & Hb). simpl in Hx', Hy, Hb.
  rewrite Hw in Hx'. injection Hx' as <-. injection Hy as <-.
  destruct (Hok i h Hi Hh) as (Hu & Hf & Hnl).
  destruct (finite_round_trip h Hu Hf) as (x1 & d1 & Hx1 & _ & [(_ & Hs & _)|(Hl & _)]);
    [|contradiction].
  rewrite Hx in Hx1. injection Hx1 as <-.
  now rewrite Hb, Hh, Hs.
Qed.

Lemma X14_witness :
  exists pr1 wide pr2 back,
    halfp2singles little_endian_ieee process_start
      (Some [1; 2; 3]) (Some [0x0000; 0xBC00; 0x0200]) 3
    = Return TRUE pr1 (Some wide) /\
    singles2halfp little_endian_ieee pr1 (Some [4; 5; 6]) (Some wide) 3
    = Return TRUE pr2 (Some back) /\
    forall i, (i < Z.to_nat 3)%nat -> back !! i = [0x0000; 0xBC00; 0x0200] !! i.
Proof.
  apply (X14_round_trip_through_singles little_endian_ieee process_start
           [0x0000; 0xBC00; 0x0200] [1; 2; 3] [4; 5; 6] 3).
  - reflexivity.
  - constructor.
  - split; simpl; lia.
  - simpl; lia.
  - intros i h Hi Hh.
    destruct i as [|[|[|i]]]; [| | |simpl in Hi; lia];
      injection Hh as <-;
      (split; [unfold is_u16; lia|]); (split; [discriminate|]);
      intros [He Hm]; vm_compute in He, Hm; destruct Hm; discriminate.
Defined.

(** X15.  The same round trip through doubles: [halfp2doubles] then
    [doubles2halfp] gives the halves back, whatever the target buffers
    held before; the low-order words that [halfp2doubles] leaves as they
    were do not matter. *)
Theorem X15_round_trip_through_doubles
    (p : platform) (pr : process) (src wide0 back0 : list Z) (numel : Z) :
  ieee_compliant p -> reachable p pr ->
  buffers_fit Halfp2doubles numel src wide0 ->
  (Z.to_nat numel <= length back0)%nat ->
  (forall i h, (i < Z.to_nat numel)%nat -> src !! i = Some h -> comes_back h) ->
  exists pr1 wide pr2 back,
    halfp2doubles p pr (Some wide0) (Some src) numel = Return TRUE pr1 (Some wide) /\
    doubles2halfp p pr1 (Some back0) (Some wide) numel = Return TRUE pr2 (Some back) /\
    forall i, (i < Z.to_nat numel)%nat -> back !! i = src !! i.
Proof.
  intros Hp Hr Hfit Hback Hok.
  destruct (call_converts p Halfp2doubles pr wide0 src numel Hp
              (reachable_consistent p pr Hr) Hfit)
    as (pr1 & wide & Hcall1 & _ & Hlen1 & Hwr1 & _).
  assert (Hr1 : reachable p pr1) by (eapply reachable_call; [exact Hr | exact Hcall1]).
  assert (Hfit2 : buffers_fit Doubles2halfp numel wide back0).
  { destruct Hfit as [_ Hw]. split; simpl in *; lia. }
  destruct (call_converts p Doubles2halfp pr1 back0 wide numel Hp
              (reachable_consistent p pr1 Hr1) Hfit2)
    as (pr2 & back & Hcall2 & _ & _ & Hwr2 & _).
  exists pr1, wide, pr2, back.
  split; [exact Hcall1|]. split; [exact Hcall2|].
  intros i Hi.
  destruct (Hwr1 i Hi) as (h & x & Hh & Hx & Hw). simpl in Hh, Hx, Hw.
  destruct (Hwr2 i Hi) as (x' & y & Hx' & Hy & Hb). simpl in Hx', Hy, Hb.
  rewrite Hw in Hx'. injection Hx' as <-. injection Hy as <-.
  destruct (Hok i h Hi Hh) as (Hu & Hf & Hnl).
  destruct (finite_round_trip h Hu Hf) as (x1 & d1 & _ & Hd1 & [(_ & _ & Hs)|(Hl & _)]);
    [|contradiction].
  rewrite Hx in Hd1. injection Hd1 as <-.
  now rewrite Hb, Hh, Hs.
Qed.

Lemma X15_witness :
  exists pr1 wide pr2 back,
    halfp2doubles little_endian_ieee process_start
      (Some [0xAAAAAAAA; 1; 0xBBBBBBBB; 2]) (Some [0x7BFF; 0x8200]) 2
    = Return TRUE pr1 (Some wide) /\
    doubles2halfp little_endian_ieee pr1 (Some [4; 5]) (Some wide) 2
    = Return TRUE pr2 (Some back) /\
    forall i, (i < Z.to_nat 2)%nat -> back !! i = [0x7BFF; 0x8200] !! i.
Proof.
  apply (X15_round_trip_through_doubles little_endian_ieee process_start
           [0x7BFF; 0x8200] [0xAAAAAAAA; 1; 0xBBBBBBBB; 2] [4; 5] 2).
  - reflexivity.
  - constructor.
  - split; simpl; lia.
  - simpl; lia.
  - intros i h Hi Hh.
    destruct i as [|[|i]]; [| |simpl in Hi; lia];
      injection Hh as <-;
      (split; [unfold is_u16; lia|]); (split; [discriminate|]);
      intros [He Hm]; vm_compute in He, Hm; destruct Hm; discriminate.
Defined.

(** X16.  A converting call of any of the four routines stays inside
    the [numel] elements of its target: the target keeps its length,
    every word past those elements keeps its value, and with a count of
    zero the whole target is left as it was. *)
Theorem X16_call_writes_only_its_elements
    (p : platform) (r : routine) (pr : process) (tgt src : list Z) (numel : Z) :
  ieee_compliant p -> reachable p pr -> buffers_fit r numel src tgt ->
  exists pr' tgt',
    call p r pr (Some tgt) (Some src) numel = Return TRUE pr' (Some tgt') /\
    length tgt' = length tgt /\
    (forall j, (tgt_words r * Z.to_nat numel <= j)%nat -> tgt' !! j = tgt !! j) /\
    (Z.to_nat numel = 0%nat -> tgt' = tgt).
Proof.
  intros Hp Hr Hfit.
  destruct (call_converts p r pr tgt src numel Hp (reachable_consistent p pr Hr) Hfit)
    as (pr' & tgt' & Hcall & _ & Hlen & _ & Hframe).
  exists pr', tgt'. split; [exact Hcall|]. split; [exact Hlen|]. split.
  - intros j Hj. apply Hframe. intros i Hi.
    unfold tgt_at, high_word.
    destruct (probe_next_cases p) as [Hn|Hn]; rewrite Hn;
      destruct r; simpl in *; lia.
  - intros Hzero. apply list_eq. intros j. apply Hframe.
    intros i Hi. lia.
Qed.

Lemma X16_witness :
  exists pr' tgt',
    call little_endian_ieee Halfp2doubles process_start
         (Some [1; 2; 3; 4; 5; 6; 7]) (Some [0x3C00; 0xC000; 0x7BFF]) 3
    = Return TRUE pr' (Some tgt') /\
    length tgt' = length [1; 2; 3; 4; 5; 6; 7] /\
    (forall j, (tgt_words Halfp2doubles * Z.to_nat 3 <= j)%nat ->
               tgt' !! j = [1; 2; 3; 4; 5; 6; 7] !! j) /\
    (Z.to_nat 3 = 0%nat -> tgt' = [1; 2; 3; 4; 5; 6; 7]).
Proof.
  apply (X16_call_writes_only_its_elements little_endian_ieee Halfp2doubles
           process_start [1; 2; 3; 4; 5; 6; 7] [0x3C00; 0xC000; 0x7BFF] 3).
  - reflexivity.
  - constructor.
  - split; simpl; lia.
Defined.

(** X17.  On a host that fails the check, a call of any of the four
    routines returns [FALSE] before it looks at its buffers: the target
    is left as it was whatever the buffers and the count are, and the
    failure is not cached, the flag stays set and the call has entered
    the check block once more. *)
Theorem X17_failed_check_converts_nothing_and_is_not_cached
    (p : platform) (r : routine) (pr : process) (target source : buffer) (numel : Z) :
  ~ ieee_compliant p -> reachable p pr ->
  exists pr',
    call p r pr target source numel = Return FALSE pr' target /\
    checkieee (statics_of r pr') <> 0 /\
    probes_of r pr' = S (probes_of r pr).
Proof.
  intros Hp Hr. pose proof (reachable_consistent p pr Hr) as Hc.
  rewrite call_unfold.
  destruct (ieee_check_case p r pr) as [H0|_ Hcomp|Hset _].
  - destruct (Hc r H0) as [Hcomp _]. contradiction.
  - contradiction.
  - eexists. split; [reflexivity|]. split.
    + now rewrite statics_of_set_eq.
    + rewrite probes_of_entered. case_decide; congruence.
Qed.

Lemma X17_witness :
  exists pr',
    call {| FLASE := 0; one_w0 := 0; one_w1 := 0x3FE00000 |} Singles2halfp
         process_start (Some [7]) (Some [0x3F800000]) 1
    = Return FALSE pr' (Some [7]) /\
    checkieee (statics_of Singles2halfp pr') <> 0 /\
    probes_of Singles2halfp pr' = S (probes_of Singles2halfp process_start).
Proof.
  apply (X17_failed_check_converts_nothing_and_is_not_cached
           {| FLASE := 0; one_w0 := 0; one_w1 := 0x3FE00000 |} Singles2halfp
           process_start (Some [7]) (Some [0x3F800000]) 1).
  - discriminate.
  - constructor.
Defined.
